(** * Auto Node CLI: the installer of [auto_node_cli.py], embedded and verified

    The Python class [CustomNodeInstaller] is embedded shallowly.  Python
    strings are Rocq strings (code points below 256), the regular expression
    of [validate_github_urls] is a value of a small syntax of patterns run by
    a backtracking matcher, and the methods that touch the operating system
    are computations in a state-and-exception monad over a [world]: a POSIX
    file tree, the process working directory and the record of the calls made
    to [subprocess.run].  Records sent to the [logging] module are
    diagnostics and are not part of the world. *)

From Stdlib Require Import Ascii String NArith ZArith DecimalString.
From stdpp Require Import base tactics option list strings gmap.

Local Open Scope string_scope.
Local Open Scope list_scope.

#[local] Arguments String.append : simpl nomatch.

(** ** Python strings *)

Definition LF : ascii := "010"%char.
Definition CR : ascii := "013"%char.
Definition nl : string := String LF "".

(** [str.isspace] on one code point below 256. *)
Definition is_space (c : ascii) : bool :=
  let n := N_of_ascii c in
  ((9 <=? n) && (n <=? 13) || (28 <=? n) && (n <=? 32) || (n =? 133) || (n =? 160))%N.

Definition is_empty (s : string) : bool :=
  match s with
  | EmptyString => true
  | String _ _ => false
  end.

Fixpoint lstrip (s : string) : string :=
  match s with
  | EmptyString => EmptyString
  | String c s' => if is_space c then lstrip s' else s
  end.

Fixpoint rstrip (s : string) : string :=
  match s with
  | EmptyString => EmptyString
  | String c s' =>
      let r := rstrip s' in
      if is_space c && is_empty r then EmptyString else String c r
  end.

(** [s.strip()] *)
Definition strip (s : string) : string := rstrip (lstrip s).

(** [sep.join(l)] *)
Definition join (sep : string) (l : list string) : string := String.concat sep l.

Fixpoint all_chars (P : ascii -> bool) (s : string) : bool :=
  match s with
  | EmptyString => true
  | String c s' => P c && all_chars P s'
  end.

(** [str(n)] for a natural number. *)
Definition str_of_nat (n : nat) : string := NilEmpty.string_of_uint (Nat.to_uint n).

(** ** The [re] module, as far as the pattern of the installer needs it

    A pattern is the sequence of operations [sre_parse] produces.  Repetition
    is over one-character items, which is all the installer's pattern has. *)

Inductive set_item : Type :=
  | SLiteral (c : ascii)
  | SRange (lo hi : ascii).

Inductive item : Type :=
  | Literal (c : ascii)
  | In_set (set : list set_item).

Inductive op : Type :=
  | At_beginning
  | At_end
  | One (i : item)
  | Max_repeat (lo : nat) (hi : option nat) (i : item).

Definition pattern : Type := list op.

Definition set_item_ok (c : ascii) (i : set_item) : bool :=
  match i with
  | SLiteral d => Ascii.eqb c d
  | SRange lo hi => ((N_of_ascii lo <=? N_of_ascii c) && (N_of_ascii c <=? N_of_ascii hi))%N
  end.

Definition item_ok (i : item) (c : ascii) : bool :=
  match i with
  | Literal d => Ascii.eqb c d
  | In_set set => existsb (set_item_ok c) set
  end.

Definition may_take (hi : option nat) : bool :=
  match hi with
  | None => true
  | Some 0 => false
  | Some (S _) => true
  end.

Definition one_less (hi : option nat) : option nat :=
  match hi with
  | None => None
  | Some n => Some (Nat.pred n)
  end.

(** Greedy repetition with backtracking: take one more character when the
    item allows it, otherwise (or when the rest of the pattern then fails)
    stop here, provided the lower bound is met.  [k] is the rest of the
    pattern; its first argument tells whether the position is still 0. *)
Fixpoint max_repeat (ok : ascii -> bool) (lo : nat) (hi : option nat)
    (k : bool -> string -> bool) (at_start : bool) (s : string) : bool :=
  match s with
  | String c s' =>
      may_take hi && ok c && max_repeat ok (Nat.pred lo) (one_less hi) k false s'
  | EmptyString => false
  end
  || Nat.eqb lo 0 && k at_start s.

(** [$] without MULTILINE: the end of the string, or just before a line feed
    that is the last character. *)
Definition at_end (s : string) : bool :=
  match s with
  | EmptyString => true
  | String c EmptyString => Ascii.eqb c LF
  | String _ (String _ _) => false
  end.

Fixpoint sre_match (p : pattern) (at_start : bool) (s : string) : bool :=
  match p with
  | [] => true
  | At_beginning :: p' => at_start && sre_match p' at_start s
  | At_end :: p' => at_end s && sre_match p' at_start s
  | One i :: p' =>
      match s with
      | String c s' => item_ok i c && sre_match p' false s'
      | EmptyString => false
      end
  | Max_repeat lo hi i :: p' => max_repeat (item_ok i) lo hi (sre_match p') at_start s
  end.

(** [re.match(pattern, string)], as a truth value. *)
Definition re_match (p : pattern) (s : string) : bool := sre_match p true s.

Fixpoint literal (s : string) : pattern :=
  match s with
  | EmptyString => []
  | String c s' => One (Literal c) :: literal s'
  end.

Definition plus (i : item) : op := Max_repeat 1 None i.
Definition optional (i : item) : op := Max_repeat 0 (Some 1) i.

(** [[a-zA-Z0-9-]] *)
Definition owner_set : list set_item :=
  [SRange "a" "z"; SRange "A" "Z"; SRange "0" "9"; SLiteral "-"]%char.

(** [[a-zA-Z0-9-._]]: after the range [0-9] the hyphen is a literal. *)
Definition repo_set : list set_item :=
  [SRange "a" "z"; SRange "A" "Z"; SRange "0" "9"; SLiteral "-"; SLiteral "."; SLiteral "_"]%char.

(** [r'^https://github\.com/[a-zA-Z0-9-]+/[a-zA-Z0-9-._]+/?$'] *)
Definition github_pattern : pattern :=
  [At_beginning] ++ literal "https://github" ++ [One (Literal ".")] ++ literal "com/"
  ++ [plus (In_set owner_set)] ++ literal "/" ++ [plus (In_set repo_set)]
  ++ [optional (Literal "/"); At_end].

(** ** [validate_github_urls] *)

Definition url_matches (url : string) : bool := re_match github_pattern url.

(** The loop of [validate_github_urls]: [(valid_urls, invalid_urls)]. *)
Fixpoint classify (urls : list string) (valid_urls invalid_urls : list string)
    : list string * list string :=
  match urls with
  | [] => (valid_urls, invalid_urls)
  | url :: rest =>
      if url_matches url
      then classify rest (valid_urls ++ [url]) invalid_urls
      else classify rest valid_urls (invalid_urls ++ [url])
  end.

Definition validate_github_urls (urls : list string) : bool * string * list string :=
  match urls with
  | [] => (false, "No repository URLs provided", [])
  | _ =>
      let '(valid_urls, invalid_urls) := classify urls [] [] in
      match invalid_urls with
      | _ :: _ => (false, "Invalid GitHub URLs found:" +:+ nl +:+ join nl invalid_urls, valid_urls)
      | [] => (true, "All URLs are valid", valid_urls)
      end
  end.

(** ** Files as text *)

(** Reading in text mode translates [\r\n] and [\r] to [\n]. *)
Fixpoint universal_newlines (s : string) : string :=
  match s with
  | EmptyString => EmptyString
  | String c s' =>
      if Ascii.eqb c CR then
        match s' with
        | String d s'' =>
            if Ascii.eqb d LF then String LF (universal_newlines s'')
            else String LF (universal_newlines s')
        | EmptyString => String LF EmptyString
        end
      else String c (universal_newlines s')
  end.

(** The lines a file object yields, each with its line feed when it has one. *)
Fixpoint readlines (s : string) : list string :=
  match s with
  | EmptyString => []
  | String c s' =>
      if Ascii.eqb c LF then String c EmptyString :: readlines s'
      else match readlines s' with
           | [] => [String c EmptyString]
           | line :: rest => String c line :: rest
           end
  end.

(** [for line in f] on a file opened with mode ['r']. *)
Definition file_lines (content : string) : list string :=
  readlines (universal_newlines content).

(** ** [pathlib] paths, POSIX flavour *)

Record path : Type := { anchored : bool; parts : list string }.

Fixpoint split_on (sep : ascii) (s : string) : list string :=
  match s with
  | EmptyString => [EmptyString]
  | String c s' =>
      if Ascii.eqb c sep then EmptyString :: split_on sep s'
      else match split_on sep s' with
           | [] => [String c EmptyString]
           | x :: xs => String c x :: xs
           end
  end.

Definition is_component (c : string) : bool :=
  negb (is_empty c || String.eqb c ".").

Definition starts_with_slash (s : string) : bool :=
  match s with
  | String c _ => Ascii.eqb c "/"
  | EmptyString => false
  end.

(** [Path(s)]: empty components and [.] are dropped, [..] is kept.  (A
    leading [//], which POSIX leaves to the implementation, is read as [/].) *)
Definition Path (s : string) : path :=
  {| anchored := starts_with_slash s;
     parts := List.filter is_component (split_on "/" s) |}.

(** [p.name] *)
Definition name (p : path) : string := List.last (parts p) "".

(** [p.parent] *)
Definition parent (p : path) : path :=
  {| anchored := anchored p; parts := removelast (parts p) |}.

(** [p / s] *)
Definition truediv (p : path) (s : string) : path :=
  let q := Path s in
  if anchored q then q
  else {| anchored := anchored p; parts := parts p ++ parts q |}.

Infix "//" := truediv (at level 40, left associativity).

(** [str(p)] *)
Definition path_str (p : path) : string :=
  match anchored p, parts p with
  | false, [] => "."
  | false, _ => join "/" (parts p)
  | true, _ => "/" +:+ join "/" (parts p)
  end.

(** ** The world: file tree, working directory, subprocess calls *)

(** An entry of the tree is a regular file with its text, a directory, or an
    entry the process may not access. *)
Inductive node : Type :=
  | File (content : string)
  | Dir
  | Denied.

Record call : Type := { call_cwd : list string; call_args : list string }.

Record world : Type :=
  { fs : gmap (list string) node;
    cwd : list string;
    calls : list call }.

Definition set_fs (w : world) (m : gmap (list string) node) : world :=
  {| fs := m; cwd := cwd w; calls := calls w |}.
Definition set_cwd (w : world) (d : list string) : world :=
  {| fs := fs w; cwd := d; calls := calls w |}.
Definition add_call (w : world) (c : call) : world :=
  {| fs := fs w; cwd := cwd w; calls := calls w ++ [c] |}.

(** The root always is a directory. *)
Definition node_at (m : gmap (list string) node) (loc : list string) : option node :=
  match loc with
  | [] => Some Dir
  | _ => m !! loc
  end.

Definition enter (cur : list string) (c : string) : list string :=
  if String.eqb c ".." then removelast cur else cur ++ [c].

Inductive walk_result : Type :=
  | Reached (loc : list string)
  | No_entry
  | No_access.

(** Resolution of the components [cs] from the directory [cur]: every
    component is looked up in a directory that must exist. *)
Fixpoint walk (m : gmap (list string) node) (cur : list string) (cs : list string)
    : walk_result :=
  match cs with
  | [] => Reached cur
  | c :: cs' =>
      match node_at m cur with
      | Some Dir => walk m (enter cur c) cs'
      | Some Denied => No_access
      | Some (File _) | None => No_entry
      end
  end.

Definition origin (w : world) (p : path) : list string :=
  if anchored p then [] else cwd w.

Inductive lookup_result : Type :=
  | Missing
  | Found (loc : list string) (n : node)
  | Refused.

Definition locate (w : world) (p : path) : lookup_result :=
  match walk (fs w) (origin w p) (parts p) with
  | Reached loc =>
      match node_at (fs w) loc with
      | Some Denied => Refused
      | Some n => Found loc n
      | None => Missing
      end
  | No_entry => Missing
  | No_access => Refused
  end.

(** Resolution of a name handed to the operating system as a string: every
    component between slashes, the empty ones and [.] too, is looked up in a
    directory, so a name that ends in a slash or in [/.] asks for a
    directory; the empty name resolves to nothing. *)
Definition os_enter (cur : list string) (c : string) : list string :=
  if is_component c then enter cur c else cur.

Fixpoint os_walk (m : gmap (list string) node) (cur : list string) (cs : list string)
    : walk_result :=
  match cs with
  | [] => Reached cur
  | c :: cs' =>
      match node_at m cur with
      | Some Dir => os_walk m (os_enter cur c) cs'
      | Some Denied => No_access
      | Some (File _) | None => No_entry
      end
  end.

Definition os_locate (w : world) (s : string) : lookup_result :=
  if is_empty s then Missing
  else
    match os_walk (fs w) (if starts_with_slash s then [] else cwd w) (split_on "/" s) with
    | Reached loc =>
        match node_at (fs w) loc with
        | Some Denied => Refused
        | Some n => Found loc n
        | None => Missing
        end
    | No_entry => Missing
    | No_access => Refused
    end.

(** ** Computations that read and change the world and may raise *)

Inductive outcome (A : Type) : Type :=
  | Return (a : A)
  | Raise (e : string).
Arguments Return {A} a.
Arguments Raise {A} e.

Definition py (A : Type) : Type := world -> outcome A * world.

Definition ret {A} (a : A) : py A := fun w => (Return a, w).
Definition raise {A} (e : string) : py A := fun w => (Raise e, w).

Definition bind {A B} (c : py A) (k : A -> py B) : py B :=
  fun w =>
    match c w with
    | (Return a, w') => k a w'
    | (Raise e, w') => (Raise e, w')
    end.

(** [try: c except Exception as e: h(str(e))] *)
Definition try_except {A} (c : py A) (h : string -> py A) : py A :=
  fun w =>
    match c w with
    | (Return a, w') => (Return a, w')
    | (Raise e, w') => h e w'
    end.

(** [try: c finally: f]; an exception raised by [f] replaces the outcome. *)
Definition try_finally {A} (c : py A) (f : py unit) : py A :=
  fun w =>
    match c w with
    | (o, w') =>
        match f w' with
        | (Return _, w'') => (o, w'')
        | (Raise e, w'') => (Raise e, w'')
        end
    end.

Notation "x <- c ;; k" := (bind c (fun x => k))
  (at level 20, c at level 99, k at level 200, only parsing).
Notation "' pat <- c ;; k" := (bind c (fun x => match x with pat => k end))
  (at level 20, pat pattern, c at level 99, k at level 200, only parsing).
Notation "c ;; k" := (bind c (fun _ => k))
  (at level 100, k at level 200, right associativity, only parsing).

Definition permission_denied (p : path) : string :=
  "[Errno 13] Permission denied: '" +:+ path_str p +:+ "'".
Definition no_such_file (p : path) : string :=
  "[Errno 2] No such file or directory: '" +:+ path_str p +:+ "'".
Definition is_a_directory (p : path) : string :=
  "[Errno 21] Is a directory: '" +:+ path_str p +:+ "'".
Definition not_a_directory (p : path) : string :=
  "[Errno 20] Not a directory: '" +:+ path_str p +:+ "'".

(** [p.stat()], with [None] for the errors [exists] and [is_dir] ignore. *)
Definition stat (p : path) : py (option (list string * node)) :=
  fun w =>
    match locate w p with
    | Missing => (Return None, w)
    | Found loc n => (Return (Some (loc, n)), w)
    | Refused => (Raise (permission_denied p), w)
    end.

(** [p.exists()] *)
Definition path_exists (p : path) : py bool :=
  s <- stat p ;;
  ret (match s with Some _ => true | None => false end).

(** [p.is_dir()] *)
Definition path_is_dir (p : path) : py bool :=
  s <- stat p ;;
  ret (match s with Some (_, Dir) => true | _ => false end).

(** [os.stat(s)] of a name given as a string, with [None] for the errors
    [os.path.exists] takes for absence. *)
Definition os_stat (s : string) : py (option (list string * node)) :=
  fun w =>
    match os_locate w s with
    | Missing => (Return None, w)
    | Found loc n => (Return (Some (loc, n)), w)
    | Refused => (Raise ("[Errno 13] Permission denied: '" +:+ s +:+ "'"), w)
    end.

(** [os.path.exists(s)] and [os.path.isdir(s)] never raise. *)
Definition os_path_exists (s : string) : py bool :=
  try_except
    (x <- os_stat s ;; ret (match x with Some _ => true | None => false end))
    (fun _ => ret false).
Definition os_path_isdir (p : path) : py bool :=
  try_except (path_is_dir p) (fun _ => ret false).

(** [open(p, 'r').read()] before newline translation. *)
Definition open_read (p : path) : py string :=
  s <- stat p ;;
  match s with
  | None => raise (no_such_file p)
  | Some (_, Dir) => raise (is_a_directory p)
  | Some (_, Denied) => raise (permission_denied p)
  | Some (_, File content) => ret content
  end.

(** [open(s, 'r').read()] of a name given as a string, before newline
    translation. *)
Definition open_read_name (s : string) : py string :=
  x <- os_stat s ;;
  match x with
  | None => raise ("[Errno 2] No such file or directory: '" +:+ s +:+ "'")
  | Some (_, Dir) => raise ("[Errno 21] Is a directory: '" +:+ s +:+ "'")
  | Some (_, Denied) => raise ("[Errno 13] Permission denied: '" +:+ s +:+ "'")
  | Some (_, File content) => ret content
  end.

(** [open(p, 'w').write(data)]: the directory of [p] must exist, the file is
    created or replaced. *)
Definition open_write (p : path) (data : string) : py unit :=
  fun w =>
    match parts p with
    | [] => (Raise (is_a_directory p), w)
    | _ :: _ =>
        let c := List.last (parts p) "" in
        match walk (fs w) (origin w p) (removelast (parts p)) with
        | No_entry => (Raise (no_such_file p), w)
        | No_access => (Raise (permission_denied p), w)
        | Reached d =>
            match node_at (fs w) d with
            | Some Dir =>
                if String.eqb c ".." then (Raise (is_a_directory p), w)
                else
                  match node_at (fs w) (d ++ [c]) with
                  | Some Dir => (Raise (is_a_directory p), w)
                  | Some Denied => (Raise (permission_denied p), w)
                  | Some (File _) | None =>
                      (Return tt, set_fs w (<[d ++ [c] := File data]> (fs w)))
                  end
            | Some Denied => (Raise (permission_denied p), w)
            | Some (File _) => (Raise (not_a_directory p), w)
            | None => (Raise (no_such_file p), w)
            end
        end
    end.

(** [os.path.samefile] inside [shutil], where its errors are swallowed. *)
Definition samefile (p q : path) : py bool :=
  fun w =>
    match locate w p, locate w q with
    | Found a _, Found b _ => (Return (bool_decide (a = b)), w)
    | _, _ => (Return false, w)
    end.

(** [shutil.copy2(src, dst)] *)
Definition shutil_copy2 (src dst : path) : py unit :=
  d <- os_path_isdir dst ;;
  let dst := if d then dst // name src else dst in
  same <- samefile src dst ;;
  if same
  then raise ("'" +:+ path_str src +:+ "' and '" +:+ path_str dst +:+ "' are the same file")
  else
    data <- open_read src ;;
    open_write dst data.

(** [os.getcwd()]: it raises when the working directory is no longer a
    directory of the tree. *)
Definition os_getcwd : py path :=
  fun w =>
    match node_at (fs w) (cwd w) with
    | Some Dir => (Return {| anchored := true; parts := cwd w |}, w)
    | _ => (Raise "[Errno 2] No such file or directory", w)
    end.

(** [os.chdir(p)] *)
Definition os_chdir (p : path) : py unit :=
  s <- stat p ;;
  match s with
  | Some (loc, Dir) => fun w => (Return tt, set_cwd w loc)
  | Some (_, _) => raise (not_a_directory p)
  | None => raise (no_such_file p)
  end.

(** [os.chdir(s)] of a name given as a string. *)
Definition os_chdir_name (s : string) : py unit :=
  x <- os_stat s ;;
  match x with
  | Some (loc, Dir) => fun w => (Return tt, set_cwd w loc)
  | Some (_, _) => raise ("[Errno 20] Not a directory: '" +:+ s +:+ "'")
  | None => raise ("[Errno 2] No such file or directory: '" +:+ s +:+ "'")
  end.

Record CompletedProcess : Type :=
  { returncode : Z; stdout : string; stderr : string }.

(** ** The installer *)

Record CustomNodeInstaller : Type :=
  { required_files : list string;
    utils_dir : path }.

(** [__init__]; [module_file] is [__file__]. *)
Definition new_installer (module_file : string) : CustomNodeInstaller :=
  {| required_files := ["clone-custom-nodes.py"; "package-preparation.py"; "start-prep.bat"];
     utils_dir := parent (Path module_file) // "utils" |}.

Definition validate_path (path : string) : py (bool * string) :=
  try_except
    (if is_empty path || is_empty (strip path) then ret (false, "Path cannot be empty!")
     else
       let path_obj := Path path in
       e <- path_exists path_obj ;;
       if negb e then ret (false, "Path does not exist: " +:+ path)
       else
         d <- path_is_dir path_obj ;;
         if negb d then ret (false, "Path is not a directory: " +:+ path)
         else if negb (String.eqb (name path_obj) "custom_nodes")
         then ret (false, "Directory must be named 'custom_nodes'")
         else
           let parent_dir := parent path_obj in
           m <- path_exists (parent_dir // "main.py") ;;
           if negb m
           then ret (false, "Directory does not appear to be a ComfyUI installation (main.py not found in parent directory)")
           else ret (true, "Path is valid"))
    (fun e => ret (false, "Error validating path: " +:+ e)).

Definition read_urls_from_file (file_path : string) : py (bool * string * list string) :=
  try_except
    (e <- os_path_exists file_path ;;
     if negb e then ret (false, "File not found: " +:+ file_path, [])
     else
       content <- open_read_name file_path ;;
       let urls :=
         map strip (List.filter (fun line => negb (is_empty (strip line)))
                                (file_lines content)) in
       if bool_decide (urls = []) then ret (false, "No URLs found in the file", [])
       else ret (true, "Successfully read " +:+ str_of_nat (length urls) +:+ " URLs from file", urls))
    (fun e => ret (false, "Error reading URLs from file: " +:+ e, [])).

(** The loop of [copy_required_files]. *)
Fixpoint copy_each (source_dir target_path : path) (files : list string)
    : py (bool * string) :=
  match files with
  | [] => ret (true, "Required files copied successfully")
  | file :: rest =>
      let source := source_dir // file in
      e <- path_exists source ;;
      if negb e then ret (false, "Required file not found: " +:+ file)
      else
        shutil_copy2 source (target_path // file) ;;
        copy_each source_dir target_path rest
  end.

Definition copy_required_files (self : CustomNodeInstaller) (target_path : path)
    : py (bool * string) :=
  try_except
    (let source_dir := utils_dir self in
     e <- path_exists source_dir ;;
     if negb e then ret (false, "Utils directory not found: " +:+ path_str (utils_dir self))
     else copy_each source_dir target_path (required_files self))
    (fun e => ret (false, "Error copying required files: " +:+ e)).

Definition save_repos (self : CustomNodeInstaller) (repos : list string)
    (custom_nodes_path : string) : py (bool * string) :=
  '(path_valid, path_msg) <- validate_path custom_nodes_path ;;
  if negb path_valid then ret (false, "Error: " +:+ path_msg)
  else
    let '(urls_valid, urls_msg, valid_urls) := validate_github_urls repos in
    if negb urls_valid then ret (false, "Error: " +:+ urls_msg)
    else
      try_except
        (let target_path := Path custom_nodes_path in
         '(copy_success, copy_msg) <- copy_required_files self target_path ;;
         if negb copy_success then ret (false, "Error: " +:+ copy_msg)
         else
           open_write (target_path // "comfy-repos.txt") (join nl valid_urls) ;;
           ret (true, "Repository list and required files saved successfully!"))
        (fun e => ret (false, "Error saving repositories: " +:+ e)).

Fixpoint times (n : nat) (s : string) : string :=
  match n with
  | 0 => ""
  | S n' => s +:+ times n' s
  end.

(** The report of [install_nodes] before it is stripped. *)
Definition formatted_output (result : CompletedProcess) : string :=
  let out := "" in
  let out := if is_empty (stdout result) then out else out +:+ stdout result +:+ nl in
  let out := if is_empty (stderr result) then out
             else out +:+ nl +:+ "Errors:" +:+ nl +:+ stderr result in
  let out := out +:+ nl +:+ times 50 "=" +:+ nl in
  out +:+ "Installation process completed!".

Section Install.

(** [sys.executable], and what running a command in a directory gives: a
    completed process, or the exception of a command that cannot be run.
    The child is known by its exit code and its two streams only: what the
    script writes to the file tree is outside the world, so that the tree
    after a call is the tree as [install_nodes] itself leaves it. *)
Variable sys_executable : string.
Variable child : call -> outcome CompletedProcess.

(** [subprocess.run(args, capture_output=True, text=True)] *)
Definition subprocess_run (args : list string) : py CompletedProcess :=
  fun w =>
    let c := {| call_cwd := cwd w; call_args := args |} in
    (child c, add_call w c).

(** The statements of [install_nodes] under [try: ... finally:]. *)
Definition run_script (script_path : path) : py (bool * string) :=
  result <- subprocess_run [sys_executable; path_str script_path] ;;
  ret (Z.eqb (returncode result) 0, strip (formatted_output result)).

(** The statements of [install_nodes] under the outer [try:]. *)
Definition install_body (custom_nodes_path : string) : py (bool * string) :=
  let script_path := Path custom_nodes_path // "clone-custom-nodes.py" in
  e <- path_exists script_path ;;
  if negb e
  then ret (false, "Error: clone-custom-nodes.py not found! Please save repository list first.")
  else
    current_dir <- os_getcwd ;;
    os_chdir_name custom_nodes_path ;;
    try_finally (run_script script_path) (os_chdir current_dir).

Definition install_nodes (custom_nodes_path : string) : py (bool * string) :=
  '(path_valid, path_msg) <- validate_path custom_nodes_path ;;
  if negb path_valid then ret (false, "Error: " +:+ path_msg)
  else
    try_except (install_body custom_nodes_path)
               (fun e => ret (false, "Installation error: " +:+ e)).

End Install.

(** ** A sample machine *)

Definition sample_urls_file : string :=
  "  https://github.com/foo/bar " +:+ String CR nl +:+ nl +:+ "not-a-url" +:+ nl.

Definition sample_fs : gmap (list string) node :=
  list_to_map
    [ (["opt"], Dir);
      (["opt"; "tool"], Dir);
      (["opt"; "tool"; "auto_node_cli.py"], File "");
      (["opt"; "tool"; "utils"], Dir);
      (["opt"; "tool"; "utils"; "clone-custom-nodes.py"], File "clone");
      (["opt"; "tool"; "utils"; "package-preparation.py"], File "prepare");
      (["opt"; "tool"; "utils"; "start-prep.bat"], File "start");
      (["comfy"], Dir);
      (["comfy"; "main.py"], File "");
      (["comfy"; "custom_nodes"], Dir);
      (["comfy"; "notes.txt"], File "");
      (["comfy"; "models"], Dir);
      (["comfy"; "vault"], Denied);
      (["home"], Dir);
      (["home"; "urls.txt"], File sample_urls_file) ].

Definition sample_world : world :=
  {| fs := sample_fs; cwd := ["home"]; calls := [] |}.

Definition sample_installer : CustomNodeInstaller :=
  new_installer "/opt/tool/auto_node_cli.py".

(** The sample machine after [save_repos]. *)
Definition staged_world : world :=
  snd (save_repos sample_installer ["https://github.com/foo/bar"] "/comfy/custom_nodes"
         sample_world).

(** The sample machine with one bundled file gone. *)
Definition incomplete_world : world :=
  set_fs sample_world (delete ["opt"; "tool"; "utils"; "start-prep.bat"] sample_fs).

(** The sample machine with a list of two repositories in the home
    directory. *)
Definition listed_world : world :=
  set_fs sample_world
    (<[ ["home"; "good.txt"] :=
          File ("https://github.com/foo/bar" +:+ nl +:+ " https://github.com/a/b/  " +:+ nl) ]>
       sample_fs).

(** The sample machine with a list whose lines end in carriage returns, one
    of them followed by a line feed, and with a blank line. *)
Definition classic_world : world :=
  set_fs sample_world
    (<[ ["home"; "classic.txt"] :=
          File ("https://github.com/foo/bar" +:+ String CR (String CR "")
                +:+ " x" +:+ String CR nl +:+ "y") ]>
       sample_fs).

Definition child_exit (code : Z) : call -> outcome CompletedProcess :=
  fun _ => Return {| returncode := code; stdout := "cloned"; stderr := "" |}.

Definition child_unavailable : call -> outcome CompletedProcess :=
  fun _ => Raise "[Errno 2] No such file or directory: 'python'".

(** ** The URL pattern in words *)

Definition in_range (lo hi c : ascii) : bool :=
  ((N_of_ascii lo <=? N_of_ascii c) && (N_of_ascii c <=? N_of_ascii hi))%N.
Definition is_letter (c : ascii) : bool := in_range "a" "z" c || in_range "A" "Z" c.
Definition is_digit (c : ascii) : bool := in_range "0" "9" c.

(** Letters, digits, hyphen. *)
Definition owner_char (c : ascii) : bool :=
  is_letter c || is_digit c || Ascii.eqb c "-".

(** Letters, digits, hyphen, dot, underscore. *)
Definition repo_char (c : ascii) : bool :=
  is_letter c || is_digit c || Ascii.eqb c "-" || Ascii.eqb c "." || Ascii.eqb c "_".

(** [https://github.com/<owner>/<repo>] with an optional trailing slash and
    nothing after it. *)
Inductive url_shape (owner_ok repo_ok : ascii -> bool) : string -> Prop :=
  | url_shape_intro (owner repo slash : string) :
      owner <> "" -> all_chars owner_ok owner = true ->
      repo <> "" -> all_chars repo_ok repo = true ->
      slash = "" \/ slash = "/" ->
      url_shape owner_ok repo_ok
        ("https://github.com/" +:+ owner +:+ "/" +:+ repo +:+ slash).

Definition github_url : string -> Prop := url_shape owner_char repo_char.

(** The data model's wording: one character set for both segments. *)
Definition github_url_loose : string -> Prop := url_shape repo_char repo_char.

(** Whether [c] is the last character of [s]. *)
Fixpoint ends_with (c : ascii) (s : string) : bool :=
  match s with
  | EmptyString => false
  | String d EmptyString => Ascii.eqb d c
  | String _ s' => ends_with c s'
  end.

(** The characters a URL of the shape is made of. *)
Definition url_char (c : ascii) : bool :=
  repo_char c || Ascii.eqb c "/" || Ascii.eqb c ":".

(** ** The checks of [validate_path] in words *)

Definition marker (s : string) : path := parent (Path s) // "main.py".

(** The first check that fails decides the verdict; a path that passes the
    five checks is valid; an error of the file system is the reason. *)
Inductive path_verdict (w : world) (path : string) : bool -> string -> Prop :=
  | verdict_empty :
      all_chars is_space path = true ->
      path_verdict w path false "Path cannot be empty!"
  | verdict_missing :
      all_chars is_space path = false ->
      locate w (Path path) = Missing ->
      path_verdict w path false ("Path does not exist: " +:+ path)
  | verdict_not_directory loc content :
      all_chars is_space path = false ->
      locate w (Path path) = Found loc (File content) ->
      path_verdict w path false ("Path is not a directory: " +:+ path)
  | verdict_wrong_name loc :
      all_chars is_space path = false ->
      locate w (Path path) = Found loc Dir ->
      name (Path path) <> "custom_nodes" ->
      path_verdict w path false "Directory must be named 'custom_nodes'"
  | verdict_no_marker loc :
      all_chars is_space path = false ->
      locate w (Path path) = Found loc Dir ->
      name (Path path) = "custom_nodes" ->
      locate w (marker path) = Missing ->
      path_verdict w path false
        "Directory does not appear to be a ComfyUI installation (main.py not found in parent directory)"
  | verdict_valid loc loc' n :
      all_chars is_space path = false ->
      locate w (Path path) = Found loc Dir ->
      name (Path path) = "custom_nodes" ->
      locate w (marker path) = Found loc' n ->
      path_verdict w path true "Path is valid"
  | verdict_path_error :
      all_chars is_space path = false ->
      locate w (Path path) = Refused ->
      path_verdict w path false
        ("Error validating path: " +:+ permission_denied (Path path))
  | verdict_marker_error loc :
      all_chars is_space path = false ->
      locate w (Path path) = Found loc Dir ->
      name (Path path) = "custom_nodes" ->
      locate w (marker path) = Refused ->
      path_verdict w path false
        ("Error validating path: " +:+ permission_denied (marker path)).

(** ** The URL list of a file in words *)

(** Line by line: strip each line, drop the lines that are then empty, keep
    the order. *)
Definition stripped_lines (content : string) : list string :=
  List.filter (fun line => negb (is_empty line)) (map strip (file_lines content)).

(** ** How writing changes the file tree *)

(** A file name that is one component of a path. *)
Definition plain (f : string) : Prop :=
  Path f = {| anchored := false; parts := [f] |} /\ f <> "..".

Definition same_dirs (m m' : gmap (list string) node) : Prop :=
  forall loc,
    (node_at m' loc = Some Dir <-> node_at m loc = Some Dir)
    /\ (node_at m' loc = Some Denied <-> node_at m loc = Some Denied).

(** [w'] is [w] with files created or replaced, all of them named in
    [names]; directories, working directory and calls are those of [w]. *)
Definition grown (names : list string) (w w' : world) : Prop :=
  cwd w' = cwd w /\ calls w' = calls w /\ same_dirs (fs w) (fs w')
  /\ forall loc, List.last loc "" ∉ names -> fs w' !! loc = fs w !! loc.

(** A URL that survives a line-oriented file: not empty, made of URL
    characters only. *)
Definition clean (url : string) : Prop := url <> "" /\ all_chars url_char url = true.

(** ** Names of files *)

(** The string [s] names the path [p]: it has the components of [p] and does
    not end in a slash or in [/.], which would ask for a directory. *)
Definition names (s : string) (p : path) : Prop :=
  Path s = p /\ is_component (List.last (split_on "/" s) "") = true.

(** ** Working directory and staged files *)

(** The working directory is a directory of the file tree. *)
Definition cwd_ok (w : world) : Prop :=
  locate w {| anchored := true; parts := cwd w |} = Found (cwd w) Dir.

Definition clone_script (custom_nodes_path : string) : path :=
  Path custom_nodes_path // "clone-custom-nodes.py".

Definition repos_file (custom_nodes_path : string) : path :=
  Path custom_nodes_path // "comfy-repos.txt".

(** The call [install_nodes] makes when the target directory is [target]. *)
Definition script_call (sys_executable : string) (target : list string)
    (custom_nodes_path : string) : call :=
  {| call_cwd := target;
     call_args := [sys_executable; path_str (clone_script custom_nodes_path)] |}.

(** ** The command line *)

(** [str.lower] on one code point below 256. *)
Definition lower_char (c : ascii) : ascii :=
  let n := N_of_ascii c in
  if ((65 <=? n) && (n <=? 90) || (192 <=? n) && (n <=? 222) && negb (n =? 215))%N
  then ascii_of_N (n + 32)
  else c.

(** [s.lower()] *)
Fixpoint lower (s : string) : string :=
  match s with
  | EmptyString => EmptyString
  | String c s' => String (lower_char c) (lower s')
  end.

(** What [parser.parse_args()] returns: [args.file], [args.dir] ([None]
    without [-d]) and [args.validate]. *)
Record Namespace : Type :=
  { args_file : string;
    args_dir : option string;
    args_validate : bool }.

(** What is written to standard output: a [print]ed line, or the prompt of
    an [input]. *)
Inductive output_event : Type :=
  | Line (s : string)
  | Prompt (s : string).

(** The terminal: the lines still to be read and what was written. *)
Record console : Type :=
  { pending_input : list string;
    written : list output_event }.

(** How a run ends before [main] returns: [sys.exit(code)], or an exception
    nothing catches. *)
Inductive ending : Type :=
  | Exited (code : Z)
  | Crashed (e : string).

Inductive progress (A : Type) : Type :=
  | Went (a : A)
  | Stopped (e : ending).
Arguments Went {A} a.
Arguments Stopped {A} e.

Definition cli (A : Type) : Type := console -> world -> progress A * console * world.

Definition cli_ret {A} (a : A) : cli A := fun t w => (Went a, t, w).

Definition cli_bind {A B} (c : cli A) (k : A -> cli B) : cli B :=
  fun t w =>
    match c t w with
    | (Went a, t', w') => k a t' w'
    | (Stopped e, t', w') => (Stopped e, t', w')
    end.

(** A method of the installer called from [main], outside any [try]. *)
Definition call_method {A} (c : py A) : cli A :=
  fun t w =>
    match c w with
    | (Return a, w') => (Went a, t, w')
    | (Raise e, w') => (Stopped (Crashed e), t, w')
    end.

(** [print(s)] *)
Definition print (s : string) : cli unit :=
  fun t w =>
    (Went tt, {| pending_input := pending_input t; written := written t ++ [Line s] |}, w).

(** [input(prompt)] *)
Definition input (prompt : string) : cli string :=
  fun t w =>
    match pending_input t with
    | answer :: rest =>
        (Went answer, {| pending_input := rest; written := written t ++ [Prompt prompt] |}, w)
    | [] =>
        (Stopped (Crashed "EOF when reading a line"),
         {| pending_input := []; written := written t ++ [Prompt prompt] |}, w)
    end.

(** [sys.exit(code)] *)
Definition sys_exit {A} (code : Z) : cli A := fun t w => (Stopped (Exited code), t, w).

Notation "x <~ c ;; k" := (cli_bind c (fun x => k))
  (at level 20, c at level 99, k at level 200, only parsing).
Notation "' pat <~ c ;; k" := (cli_bind c (fun x => match x with pat => k end))
  (at level 20, pat pattern, c at level 99, k at level 200, only parsing).
Notation "c ;;; k" := (cli_bind c (fun _ => k))
  (at level 100, k at level 200, right associativity, only parsing).

Section Main.

(** [__file__], [sys.executable] and the behaviour of child processes. *)
Variable module_file : string.
Variable sys_executable : string.
Variable child : call -> outcome CompletedProcess.

(** [main()], from the parsed arguments on. *)
Definition main (args : Namespace) : cli unit :=
  let installer := new_installer module_file in
  print ("Reading URLs from file: " +:+ args_file args) ;;;
  '(success, message, urls) <~ call_method (read_urls_from_file (args_file args)) ;;
  if negb success then (print ("Error: " +:+ message) ;;; sys_exit 1)
  else
    print ("Found " +:+ str_of_nat (length urls) +:+ " GitHub URLs") ;;;
    let '(urls_valid, urls_msg, valid_urls) := validate_github_urls urls in
    if negb urls_valid then (print ("Error: " +:+ urls_msg) ;;; sys_exit 1)
    else
      custom_nodes_path <~
        match args_dir args with
        | Some d =>
            if is_empty d
            then input "Enter the path to your ComfyUI custom_nodes directory: "
            else cli_ret d
        | None => input "Enter the path to your ComfyUI custom_nodes directory: "
        end ;;
      '(path_valid, path_msg) <~ call_method (validate_path custom_nodes_path) ;;
      if negb path_valid then (print ("Error: " +:+ path_msg) ;;; sys_exit 1)
      else
        print ("Path validation: " +:+ path_msg) ;;;
        if args_validate args then (print "Validation successful!" ;;; sys_exit 0)
        else
          '(save_success, save_msg) <~
            call_method (save_repos installer valid_urls custom_nodes_path) ;;
          if negb save_success then (print save_msg ;;; sys_exit 1)
          else
            print save_msg ;;;
            confirm <~ input "Ready to install nodes. Continue? (y/n): " ;;
            if negb (String.eqb (lower confirm) "y")
            then (print "Installation cancelled" ;;; sys_exit 0)
            else
              '(success, output) <~
                call_method (install_nodes sys_executable child custom_nodes_path) ;;
              print output ;;;
              if negb success
              then (print "Installation completed with errors. Check the log for details." ;;;
                    sys_exit 1)
              else print "Installation completed successfully!".

End Main.

(** The directory [main] works on: [args.dir], or the first line typed when
    it is missing or empty. *)
Definition chosen_directory (args : Namespace) (t : console) : option string :=
  match args_dir args with
  | Some d => if is_empty d then head (pending_input t) else Some d
  | None => head (pending_input t)
  end.

(** The line typed at the prompt that asks whether to install. *)
Definition confirmation (args : Namespace) (t : console) : option string :=
  match args_dir args with
  | Some d => if is_empty d then pending_input t !! 1 else pending_input t !! 0
  | None => pending_input t !! 1
  end.

(** The exit status of the process: [0] when [main] returns, the argument
    of [sys.exit], [1] after an uncaught exception. *)
Definition exit_status (p : progress unit) : Z :=
  match p with
  | Went _ => 0
  | Stopped (Exited code) => code
  | Stopped (Crashed _) => 1
  end.

(** Runs of [main] on the sample machine. *)
Definition sample_console (lines : list string) : console :=
  {| pending_input := lines; written := [] |}.

Definition sample_args (file : string) (dir : option string) (validate : bool) : Namespace :=
  {| args_file := file; args_dir := dir; args_validate := validate |}.

Definition sample_main (args : Namespace) (lines : list string) (w : world)
    : progress unit * console * world :=
  main "/opt/tool/auto_node_cli.py" "python" (child_exit 0) args (sample_console lines) w.

(** * Properties *)

(** ** Strings *)

Lemma append_empty_r (s : string) : s +:+ "" = s.
Proof. induction s as [|c s IH]; simpl; [done | by rewrite IH]. Qed.

Lemma append_assoc (a b c : string) : (a +:+ b) +:+ c = a +:+ (b +:+ c).
Proof. induction a as [|x a IH]; simpl; [done | by rewrite IH]. Qed.

Lemma all_chars_append (P : ascii -> bool) (a b : string) :
  all_chars P (a +:+ b) = all_chars P a && all_chars P b.
Proof.
  induction a as [|x a IH]; simpl; [done|].
  rewrite IH. by rewrite andb_assoc.
Qed.

Lemma is_empty_true (s : string) : is_empty s = true <-> s = "".
Proof. destruct s; simpl; split; congruence. Qed.

Lemma is_empty_false (s : string) : is_empty s = false <-> s <> "".
Proof. destruct s; simpl; split; congruence. Qed.

(** ** The matcher against the pattern in words *)

Lemma at_end_iff (s : string) : at_end s = true <-> s = "" \/ s = nl.
Proof.
  destruct s as [|c [|d s]]; simpl.
  - split; [by left | done].
  - split.
    + intros H. right. apply Ascii.eqb_eq in H. by subst.
    + intros [H|H]; [done|]. injection H as ->. reflexivity.
  - split; [done | intros [H|H]; discriminate].
Qed.

Lemma sre_match_literal (lit : string) (p : pattern) (st : bool) (s : string) :
  sre_match (literal lit ++ p) st s = true
  <-> exists s', s = lit +:+ s' /\ sre_match p (st && is_empty lit) s' = true.
Proof.
  revert st s. induction lit as [|c lit IH]; intros st s.
  - simpl. rewrite andb_true_r. split; [eauto | by intros (? & -> & ?)].
  - simpl. rewrite andb_false_r. destruct s as [|d s].
    + split; [done | by intros (? & ? & _)].
    + rewrite andb_true_iff, IH, Ascii.eqb_eq. simpl. split.
      * intros (-> & s' & -> & H). eauto.
      * intros (s' & [= -> ->] & H). eauto.
Qed.

Lemma max_repeat_unbounded (ok : ascii -> bool) (lo : nat)
    (k : bool -> string -> bool) (st : bool) (s : string) :
  max_repeat ok lo None k st s = true
  <-> exists pre rest, s = pre +:+ rest /\ all_chars ok pre = true
        /\ lo <= String.length pre /\ k (st && is_empty pre) rest = true.
Proof.
  revert lo st. induction s as [|c s IH]; intros lo st.
  - simpl. rewrite andb_true_iff, Nat.eqb_eq. split.
    + intros [-> H]. exists "", "". simpl. rewrite andb_true_r. repeat split; [lia | done].
    + intros (pre & rest & E & _ & Hlo & H).
      destruct pre; [|discriminate]. destruct rest; [|discriminate].
      simpl in *. rewrite andb_true_r in H. split; [lia | done].
  - simpl. rewrite orb_true_iff, !andb_true_iff, Nat.eqb_eq, IH. split.
    + intros [[Hc (pre & rest & -> & Hall & Hlo & H)] | [-> H]].
      * exists (String c pre), rest. simpl. rewrite Hc, Hall, andb_false_r.
        repeat split; [lia | done].
      * exists "", (String c s). simpl. rewrite andb_true_r. repeat split; [lia | done].
    + intros (pre & rest & E & Hall & Hlo & H). destruct pre as [|d pre].
      * right. simpl in *. subst rest. rewrite andb_true_r in H. split; [lia | done].
      * left. simpl in *. injection E as -> ->. apply andb_true_iff in Hall as [Hd Hall].
        rewrite andb_false_r in H. split; [done|].
        exists pre, rest. repeat split; [done | lia | done].
Qed.

Lemma max_repeat_optional (ok : ascii -> bool) (k : bool -> string -> bool)
    (st : bool) (s : string) :
  max_repeat ok 0 (Some 1) k st s = true
  <-> (exists c s', s = String c s' /\ ok c = true /\ k false s' = true) \/ k st s = true.
Proof.
  destruct s as [|c s]; simpl.
  - split; [by right | intros [(? & ? & ? & _) | H]; done].
  - rewrite orb_true_iff, andb_true_iff. split.
    + intros [[Hc H] | H]; [left | by right].
      exists c, s. repeat split; [done|]. destruct s; simpl in H; done.
    + intros [(d & s' & [= -> ->] & Hc & H) | H]; [left | by right].
      split; [done|]. destruct s'; simpl; done.
Qed.

Lemma owner_set_ok (c : ascii) : item_ok (In_set owner_set) c = owner_char c.
Proof.
  unfold owner_char, is_letter, is_digit, in_range. simpl.
  rewrite orb_false_r, !orb_assoc. reflexivity.
Qed.

Lemma repo_set_ok (c : ascii) : item_ok (In_set repo_set) c = repo_char c.
Proof.
  unfold repo_char, is_letter, is_digit, in_range. simpl.
  rewrite orb_false_r, !orb_assoc. reflexivity.
Qed.

Lemma all_chars_ext (P Q : ascii -> bool) (s : string) :
  (forall c, P c = Q c) -> all_chars P s = all_chars Q s.
Proof. intros E. induction s as [|c s IH]; simpl; [done | by rewrite E, IH]. Qed.

Lemma length_positive (s : string) : 1 <= String.length s <-> s <> "".
Proof. destruct s; simpl; split; (congruence || lia). Qed.

Lemma github_pattern_eq :
  github_pattern
  = At_beginning :: literal "https://github.com/"
      ++ plus (In_set owner_set) :: literal "/"
      ++ [plus (In_set repo_set); optional (Literal "/"); At_end].
Proof. reflexivity. Qed.

Lemma sre_match_tail (st : bool) (s : string) :
  sre_match [optional (Literal "/"); At_end] st s = true
  <-> exists slash e, s = slash +:+ e /\ (slash = "" \/ slash = "/") /\ (e = "" \/ e = nl).
Proof.
  change (sre_match [optional (Literal "/"); At_end] st s)
    with (max_repeat (item_ok (Literal "/")) 0 (Some 1) (sre_match [At_end]) st s).
  rewrite max_repeat_optional.
  assert (E : forall b x, sre_match [At_end] b x = at_end x)
    by (intros b x; simpl; apply andb_true_r).
  rewrite !E. split.
  - intros [(c & s' & -> & Hc & H) | H].
    + rewrite E in H. apply Ascii.eqb_eq in Hc as ->. apply at_end_iff in H.
      exists "/", s'. auto.
    + apply at_end_iff in H. exists "", s. auto.
  - intros (slash & e & -> & [-> | ->] & He); apply at_end_iff in He.
    + by right.
    + left. exists "/"%char, e. rewrite E. auto.
Qed.

(** What the pattern accepts: a URL of the shape, or such a URL and one line
    feed. *)
Lemma url_matches_iff (url : string) :
  url_matches url = true
  <-> exists u e, github_url u /\ (e = "" \/ e = nl) /\ url = u +:+ e.
Proof.
  unfold url_matches, re_match. rewrite github_pattern_eq.
  change (sre_match (At_beginning :: ?p) true url) with (true && sre_match p true url).
  rewrite andb_true_l, sre_match_literal. split.
  - intros (s1 & -> & H).
    change (sre_match (plus ?i :: ?p) ?st s1)
      with (max_repeat (item_ok i) 1 None (sre_match p) st s1) in H.
    apply max_repeat_unbounded in H as (owner & s2 & -> & Ho & Hlo & H).
    apply sre_match_literal in H as (s3 & -> & H).
    change (sre_match (plus ?i :: ?p) ?st s3)
      with (max_repeat (item_ok i) 1 None (sre_match p) st s3) in H.
    apply max_repeat_unbounded in H as (repo & s4 & -> & Hr & Hlr & H).
    apply sre_match_tail in H as (slash & e & -> & Hs & He).
    exists ("https://github.com/" +:+ owner +:+ "/" +:+ repo +:+ slash), e.
    split; [|split; [done|]].
    + constructor; try done.
      * by apply length_positive.
      * rewrite <- Ho. apply all_chars_ext. intros c. symmetry. apply owner_set_ok.
      * by apply length_positive.
      * rewrite <- Hr. apply all_chars_ext. intros c. symmetry. apply repo_set_ok.
    + by rewrite !append_assoc.
  - intros (u & e & Hu & He & ->). destruct Hu as [owner repo slash Ho1 Ho2 Hr1 Hr2 Hs].
    exists (owner +:+ "/" +:+ repo +:+ slash +:+ e). split; [by rewrite !append_assoc|].
    change (sre_match (plus ?i :: ?p) ?st ?s)
      with (max_repeat (item_ok i) 1 None (sre_match p) st s).
    apply max_repeat_unbounded. exists owner, ("/" +:+ repo +:+ slash +:+ e).
    split; [done|]. split; [|split; [by apply length_positive|]].
    { rewrite <- Ho2. apply all_chars_ext, owner_set_ok. }
    apply sre_match_literal. exists (repo +:+ slash +:+ e). split; [done|].
    change (sre_match (plus ?i :: ?p) ?st ?s)
      with (max_repeat (item_ok i) 1 None (sre_match p) st s).
    apply max_repeat_unbounded. exists repo, (slash +:+ e).
    split; [done|]. split; [|split; [by apply length_positive|]].
    { rewrite <- Hr2. apply all_chars_ext, repo_set_ok. }
    apply sre_match_tail. eauto.
Qed.

(** ** URLs of the shape *)

Lemma owner_char_repo_char (c : ascii) : owner_char c = true -> repo_char c = true.
Proof. unfold repo_char, owner_char. intros ->. reflexivity. Qed.

Lemma all_chars_impl (P Q : ascii -> bool) (s : string) :
  (forall c, P c = true -> Q c = true) -> all_chars P s = true -> all_chars Q s = true.
Proof.
  intros PQ. induction s as [|c s IH]; simpl; [done|].
  rewrite !andb_true_iff. intros [? ?]. auto.
Qed.

Lemma github_url_chars (u : string) : github_url u -> all_chars url_char u = true.
Proof.
  intros [owner repo slash _ Ho _ Hr Hs].
  assert (Rc : forall c, repo_char c = true -> url_char c = true)
    by (intros c H; unfold url_char; by rewrite H).
  rewrite !all_chars_append, !andb_true_iff. repeat split.
  - eapply all_chars_impl; [|exact Ho]. intros c H. by apply Rc, owner_char_repo_char.
  - eapply all_chars_impl; [|exact Hr]. exact Rc.
  - by destruct Hs as [-> | ->].
Qed.

Lemma github_url_nonempty (u : string) : github_url u -> u <> "".
Proof. intros [owner repo slash _ _ _ _ _]. discriminate. Qed.

Lemma ends_with_append (c : ascii) (u : string) : ends_with c (u +:+ String c "") = true.
Proof.
  induction u as [|d u IH]; simpl; [apply Ascii.eqb_refl|].
  destruct (u +:+ String c "") eqn:E; [by destruct u | exact IH].
Qed.

Lemma ends_with_all_chars (P : ascii -> bool) (c : ascii) (s : string) :
  all_chars P s = true -> P c = false -> ends_with c s = false.
Proof.
  intros Hs Hc. induction s as [|d s IH]; [done|].
  simpl in Hs. apply andb_true_iff in Hs as [Hd Hs]. simpl. destruct s as [|e s].
  - apply Ascii.eqb_neq. intros ->. congruence.
  - by apply IH.
Qed.

Lemma github_url_no_newline (u : string) : github_url u -> ends_with LF u = false.
Proof. intros Hu. eapply ends_with_all_chars; [by apply github_url_chars | reflexivity]. Qed.

Lemma newline_not_github_url (u : string) : ~ github_url (u +:+ nl).
Proof.
  intros H. apply github_url_no_newline in H. unfold nl in H.
  by rewrite ends_with_append in H.
Qed.

Lemma url_matches_no_newline (url : string) :
  ends_with LF url = false -> (url_matches url = true <-> github_url url).
Proof.
  intros Hn. rewrite url_matches_iff. split.
  - intros (u & e & Hu & [-> | ->] & ->).
    + by rewrite append_empty_r.
    + unfold nl in Hn. by rewrite ends_with_append in Hn.
  - intros Hu. exists url, "". by rewrite append_empty_r; auto.
Qed.

Lemma url_matches_newline (u : string) : github_url u -> url_matches (u +:+ nl) = true.
Proof. intros Hu. apply url_matches_iff. exists u, nl. auto. Qed.

(** ** [validate_github_urls] *)

Lemma classify_filter (urls valid_urls invalid_urls : list string) :
  classify urls valid_urls invalid_urls
  = (valid_urls ++ List.filter url_matches urls,
     invalid_urls ++ List.filter (fun u => negb (url_matches u)) urls).
Proof.
  revert valid_urls invalid_urls.
  induction urls as [|url urls IH]; intros v i; simpl.
  - by rewrite !app_nil_r.
  - destruct (url_matches url); simpl; rewrite IH, <- app_assoc; reflexivity.
Qed.

Lemma validate_github_urls_eq (urls : list string) :
  validate_github_urls urls
  = match urls, List.filter (fun u => negb (url_matches u)) urls with
    | [], _ => (false, "No repository URLs provided", [])
    | _, [] => (true, "All URLs are valid", List.filter url_matches urls)
    | _, invalid_urls =>
        (false, "Invalid GitHub URLs found:" +:+ nl +:+ join nl invalid_urls,
         List.filter url_matches urls)
    end.
Proof.
  destruct urls as [|url urls]; [done|].
  unfold validate_github_urls. rewrite classify_filter, !app_nil_l.
  destruct (List.filter (fun u => negb (url_matches u)) (url :: urls)); reflexivity.
Qed.

Lemma filter_negb_nil (urls : list string) :
  List.filter (fun u => negb (url_matches u)) urls = []
  <-> Forall (fun u => url_matches u = true) urls.
Proof.
  induction urls as [|u urls IH]; simpl.
  - split; [constructor | done].
  - destruct (url_matches u) eqn:E; simpl.
    + rewrite IH. split; [by constructor | by inversion 1].
    + split; [done | inversion 1; congruence].
Qed.

Lemma validate_single (url : string) :
  validate_github_urls [url]
  = if url_matches url then (true, "All URLs are valid", [url])
    else (false, "Invalid GitHub URLs found:" +:+ nl +:+ url, []).
Proof. rewrite validate_github_urls_eq. simpl. by destruct (url_matches url). Qed.

Lemma validate_github_urls_subset (urls : list string) :
  urls <> [] -> snd (validate_github_urls urls) = List.filter url_matches urls.
Proof.
  intros Hne. rewrite validate_github_urls_eq.
  destruct urls as [|u urls]; [done|].
  by destruct (List.filter (fun u => negb (url_matches u)) (u :: urls)).
Qed.

Lemma elem_of_validated (urls : list string) (url : string) :
  url ∈ snd (validate_github_urls urls) <-> url ∈ urls /\ url_matches url = true.
Proof.
  destruct urls as [|u urls].
  - simpl. split; [by intros ?%elem_of_nil | by intros [?%elem_of_nil _]].
  - rewrite validate_github_urls_subset by done.
    rewrite !list_elem_of_In, filter_In. reflexivity.
Qed.

Lemma first_separator_unique (c : ascii) (a b x y : string) :
  a +:+ String c x = b +:+ String c y ->
  all_chars (fun d => negb (Ascii.eqb d c)) a = true ->
  all_chars (fun d => negb (Ascii.eqb d c)) b = true ->
  a = b.
Proof.
  revert b. induction a as [|d a IH]; intros [|e b] E Ha Hb; simpl in *.
  - done.
  - injection E as <- _. by rewrite Ascii.eqb_refl in Hb.
  - injection E as -> _. by rewrite Ascii.eqb_refl in Ha.
  - injection E as -> E. apply andb_true_iff in Ha as [_ Ha], Hb as [_ Hb].
    f_equal. by apply IH.
Qed.

Lemma bad_owner_rejected (owner rest : string) :
  all_chars (fun d => negb (Ascii.eqb d "/")) owner = true ->
  all_chars owner_char owner = false ->
  url_matches ("https://github.com/" +:+ owner +:+ "/" +:+ rest) = false.
Proof.
  intros Hseg Hbad. apply not_true_is_false. intros H.
  apply url_matches_iff in H as (u & e & Hu & _ & E).
  destruct Hu as [o repo slash _ Ho _ _ _].
  rewrite !append_assoc in E. apply (inj (String.append _)) in E.
  apply first_separator_unique in E; [congruence | done |].
  eapply all_chars_impl; [|exact Ho].
  intros c Hc. apply negb_true_iff, Ascii.eqb_neq. intros ->. discriminate.
Qed.

(** ** Stripping *)

Lemma lstrip_spaces (s : string) : all_chars is_space s = true -> lstrip s = "".
Proof.
  induction s as [|c s IH]; simpl; [done|].
  intros [Hc Hs]%andb_true_iff. rewrite Hc. auto.
Qed.

Lemma lstrip_not_spaces (s : string) :
  all_chars is_space s = false ->
  exists c s', lstrip s = String c s' /\ is_space c = false.
Proof.
  induction s as [|c s IH]; simpl; [done|].
  destruct (is_space c) eqn:Hc; simpl; [exact IH | eauto].
Qed.

Lemma strip_empty_iff (s : string) : strip s = "" <-> all_chars is_space s = true.
Proof.
  unfold strip. destruct (all_chars is_space s) eqn:E.
  - by rewrite lstrip_spaces.
  - destruct (lstrip_not_spaces s E) as (c & s' & -> & Hc). simpl. by rewrite Hc.
Qed.

Lemma blank_path (path : string) :
  is_empty path || is_empty (strip path) = all_chars is_space path.
Proof.
  destruct path as [|c path]; [done|]. rewrite orb_false_l.
  destruct (all_chars is_space (String c path)) eqn:E.
  - apply is_empty_true, strip_empty_iff, E.
  - apply is_empty_false. rewrite strip_empty_iff. congruence.
Qed.

(** ** Reading the file tree *)

Lemma path_exists_eq (p : path) (w : world) :
  path_exists p w
  = match locate w p with
    | Missing => (Return false, w)
    | Found _ _ => (Return true, w)
    | Refused => (Raise (permission_denied p), w)
    end.
Proof. unfold path_exists, bind, stat, ret. by destruct (locate w p). Qed.

Lemma path_is_dir_eq (p : path) (w : world) :
  path_is_dir p w
  = match locate w p with
    | Found _ Dir => (Return true, w)
    | Missing | Found _ _ => (Return false, w)
    | Refused => (Raise (permission_denied p), w)
    end.
Proof. unfold path_is_dir, bind, stat, ret. by destruct (locate w p) as [|? []|]. Qed.

Lemma locate_not_denied (w : world) (p : path) (loc : list string) :
  locate w p <> Found loc Denied.
Proof.
  unfold locate. destruct (walk _ _ _); [|done..].
  by destruct (node_at _ _) as [[]|].
Qed.

(** [validate_path] as one case analysis on what the file tree holds. *)
Lemma validate_path_eq (path : string) (w : world) :
  validate_path path w
  = (Return
       (if all_chars is_space path then (false, "Path cannot be empty!")
        else
          match locate w (Path path) with
          | Missing => (false, "Path does not exist: " +:+ path)
          | Refused => (false, "Error validating path: " +:+ permission_denied (Path path))
          | Found _ (File _) | Found _ Denied => (false, "Path is not a directory: " +:+ path)
          | Found _ Dir =>
              if String.eqb (name (Path path)) "custom_nodes" then
                match locate w (marker path) with
                | Missing =>
                    (false, "Directory does not appear to be a ComfyUI installation (main.py not found in parent directory)")
                | Refused =>
                    (false, "Error validating path: " +:+ permission_denied (marker path))
                | Found _ _ => (true, "Path is valid")
                end
              else (false, "Directory must be named 'custom_nodes'")
          end), w).
Proof.
  unfold validate_path, try_except, bind. rewrite blank_path.
  destruct (all_chars is_space path); [done|].
  rewrite path_exists_eq. destruct (locate w (Path path)) as [|loc n|] eqn:Hp; [done| |done].
  simpl. rewrite path_is_dir_eq, Hp. destruct n; [done| |done]. simpl.
  destruct (String.eqb (name (Path path)) "custom_nodes"); [|done]. simpl.
  rewrite path_exists_eq. fold (marker path). by destruct (locate w (marker path)).
Qed.

Lemma os_path_exists_eq (s : string) (w : world) :
  os_path_exists s w
  = (Return (match os_locate w s with Found _ _ => true | _ => false end), w).
Proof.
  unfold os_path_exists, try_except, bind, os_stat.
  by destruct (os_locate w s).
Qed.

Lemma open_read_name_eq (s : string) (w : world) :
  open_read_name s w
  = match os_locate w s with
    | Missing => (Raise ("[Errno 2] No such file or directory: '" +:+ s +:+ "'"), w)
    | Found _ (File content) => (Return content, w)
    | Found _ Dir => (Raise ("[Errno 21] Is a directory: '" +:+ s +:+ "'"), w)
    | Found _ Denied | Refused => (Raise ("[Errno 13] Permission denied: '" +:+ s +:+ "'"), w)
    end.
Proof. unfold open_read_name, bind, os_stat. by destruct (os_locate w s) as [|? []|]. Qed.

Lemma open_read_eq (p : path) (w : world) :
  open_read p w
  = match locate w p with
    | Missing => (Raise (no_such_file p), w)
    | Found _ (File content) => (Return content, w)
    | Found _ Dir => (Raise (is_a_directory p), w)
    | Found _ Denied | Refused => (Raise (permission_denied p), w)
    end.
Proof. unfold open_read, bind, stat. by destruct (locate w p) as [|? []|]. Qed.

(** ** Names given to the operating system *)

Lemma os_walk_components (m : gmap (list string) node) (cur cs : list string) :
  is_component (List.last cs "") = true ->
  os_walk m cur cs = walk m cur (List.filter is_component cs).
Proof.
  revert cur. induction cs as [|c cs IH]; intros cur H; [done|].
  destruct cs as [|c' cs'].
  - simpl in *. unfold os_enter. by rewrite H.
  - change (List.last (c :: c' :: cs') "") with (List.last (c' :: cs') "") in H.
    specialize (IH (os_enter cur c) H) as IHc. specialize (IH cur H).
    change (os_walk m cur (c :: c' :: cs'))
      with (match node_at m cur with
            | Some Dir => os_walk m (os_enter cur c) (c' :: cs')
            | Some Denied => No_access
            | Some (File _) | None => No_entry
            end).
    change (List.filter is_component (c :: c' :: cs'))
      with (if is_component c then c :: List.filter is_component (c' :: cs')
            else List.filter is_component (c' :: cs')).
    unfold os_enter in *. destruct (is_component c).
    + by rewrite IHc.
    + rewrite <- IH. destruct (node_at m cur) as [[]|] eqn:E; simpl; by rewrite ?E.
Qed.

(** A name without a trailing slash or dot resolves as its path does. *)
Lemma os_locate_names (w : world) (s : string) (p : path) :
  names s p -> os_locate w s = locate w p.
Proof.
  intros [<- Hlast]. unfold os_locate, locate, origin.
  destruct s as [|c s]; [done|]. simpl is_empty. cbv iota.
  by rewrite os_walk_components.
Qed.

(** ** [read_urls_from_file] *)

Lemma strip_then_filter (lines : list string) :
  map strip (List.filter (fun line => negb (is_empty (strip line))) lines)
  = List.filter (fun line => negb (is_empty line)) (map strip lines).
Proof.
  induction lines as [|l lines IH]; simpl; [done|].
  destruct (is_empty (strip l)); simpl; by rewrite IH.
Qed.

Lemma read_urls_from_file_eq (file_path : string) (w : world) :
  read_urls_from_file file_path w
  = (Return
       match os_locate w file_path with
       | Missing | Refused => (false, "File not found: " +:+ file_path, [])
       | Found _ (File content) =>
           let urls := stripped_lines content in
           if bool_decide (urls = []) then (false, "No URLs found in the file", [])
           else (true, "Successfully read " +:+ str_of_nat (length urls) +:+ " URLs from file", urls)
       | Found _ Dir =>
           (false, "Error reading URLs from file: [Errno 21] Is a directory: '"
                   +:+ file_path +:+ "'", [])
       | Found _ Denied =>
           (false, "Error reading URLs from file: [Errno 13] Permission denied: '"
                   +:+ file_path +:+ "'", [])
       end, w).
Proof.
  unfold read_urls_from_file, try_except, bind. rewrite os_path_exists_eq.
  destruct (os_locate w file_path) as [|loc n|] eqn:Hp; simpl; [done| |done].
  rewrite open_read_name_eq, Hp. destruct n as [content| |]; [|done..].
  rewrite strip_then_filter. fold (stripped_lines content).
  by destruct (bool_decide (stripped_lines content = [])).
Qed.

Lemma stripped_lines_clean (content : string) :
  Forall (fun url => url <> "" /\ exists line, line ∈ file_lines content /\ url = strip line)
         (stripped_lines content).
Proof.
  unfold stripped_lines. apply Forall_forall.
  intros url [Hin Hne]%list_elem_of_In%filter_In.
  apply in_map_iff in Hin as (line & <- & Hin). split.
  - apply is_empty_false. by destruct (is_empty (strip line)).
  - exists line. by rewrite list_elem_of_In.
Qed.

(** ** Writing into the file tree *)

Lemma walk_same_dirs (m m' : gmap (list string) node) (cur cs : list string) :
  same_dirs m m' -> walk m' cur cs = walk m cur cs.
Proof.
  intros Hd. revert cur. induction cs as [|c cs IH]; intros cur; simpl; [done|].
  destruct (Hd cur) as [HDir HDen].
  destruct (node_at m cur) as [[]|] eqn:E, (node_at m' cur) as [[]|] eqn:E';
    try done; try (by apply IH);
    try (by destruct HDir as [H1 H2]; (specialize (H1 eq_refl) || specialize (H2 eq_refl)));
    try (by destruct HDen as [H1 H2]; (specialize (H1 eq_refl) || specialize (H2 eq_refl))).
Qed.

Lemma walk_snoc (m : gmap (list string) node) (cur cs : list string) (c : string) :
  walk m cur (cs ++ [c])
  = match walk m cur cs with
    | Reached d =>
        match node_at m d with
        | Some Dir => Reached (enter d c)
        | Some Denied => No_access
        | Some (File _) | None => No_entry
        end
    | r => r
    end.
Proof.
  revert cur. induction cs as [|x cs IH]; intros cur; simpl.
  - by destruct (node_at m cur) as [[]|].
  - destruct (node_at m cur) as [[]|]; first [done | apply IH].
Qed.

Lemma walk_snoc_last (m : gmap (list string) node) (cur cs loc : list string) (c : string) :
  c <> ".." -> walk m cur (cs ++ [c]) = Reached loc -> List.last loc "" = c.
Proof.
  intros Hc. rewrite walk_snoc. destruct (walk m cur cs) as [d| |]; [|done..].
  destruct (node_at m d) as [[]|]; try done. intros [= <-].
  unfold enter. apply String.eqb_neq in Hc. rewrite Hc. apply last_last.
Qed.

Lemma grown_refl (names : list string) (w : world) : grown names w w.
Proof. repeat split; auto. Qed.

Lemma grown_weaken (names names' : list string) (w w' : world) :
  names ⊆ names' -> grown names w w' -> grown names' w w'.
Proof.
  intros Hsub (Hc & Hk & Hd & Hloc). split; [done|]. split; [done|]. split; [done|].
  intros loc Hn. apply Hloc. intros Hin. by apply Hn, Hsub.
Qed.

Lemma same_dirs_trans (m1 m2 m3 : gmap (list string) node) :
  same_dirs m1 m2 -> same_dirs m2 m3 -> same_dirs m1 m3.
Proof.
  intros H12 H23 loc. destruct (H12 loc) as [A B], (H23 loc) as [C D].
  split; [by rewrite C, A | by rewrite D, B].
Qed.

Lemma grown_trans (names : list string) (w1 w2 w3 : world) :
  grown names w1 w2 -> grown names w2 w3 -> grown names w1 w3.
Proof.
  intros (c1 & k1 & d1 & l1) (c2 & k2 & d2 & l2). split; [congruence|].
  split; [congruence|]. split; [by eapply same_dirs_trans|].
  intros loc Hn. by rewrite l2, l1.
Qed.

Lemma locate_grown_refused (names : list string) (w w' : world) (p : path) :
  grown names w w' -> locate w p = Refused -> locate w' p = Refused.
Proof.
  intros (Hc & _ & Hd & _). unfold locate, origin. rewrite Hc, (walk_same_dirs _ _ _ _ Hd).
  destruct (walk _ _ _) as [loc| |]; [|done..].
  destruct (Hd loc) as [_ HDen].
  destruct (node_at (fs w) loc) as [[]|] eqn:E; try done.
  intros _. destruct HDen as [_ ->]; done.
Qed.

Lemma locate_grown_missing (names : list string) (w w' : world) (p : path) :
  grown names w w' ->
  (forall loc, walk (fs w) (origin w p) (parts p) = Reached loc -> List.last loc "" ∉ names) ->
  locate w p = Missing -> locate w' p = Missing.
Proof.
  intros (Hc & _ & Hd & Hl) Hlast. unfold locate, origin in *.
  rewrite Hc, (walk_same_dirs _ _ _ _ Hd).
  destruct (walk _ _ _) as [loc| |]; [|done..].
  specialize (Hlast loc eq_refl). specialize (Hl loc Hlast).
  destruct loc as [|x loc]; [done|]. unfold node_at. rewrite Hl.
  by destruct (fs w !! (x :: loc)) as [[]|].
Qed.

Lemma open_write_grown (p : path) (data : string) (w w' : world) (o : outcome unit) :
  open_write p data w = (o, w') -> grown [List.last (parts p) ""] w w'.
Proof.
  unfold open_write. destruct (parts p) as [|x xs] eqn:Hparts.
  { intros [= _ <-]. apply grown_refl. }
  set (c := List.last (x :: xs) "").
  destruct (walk _ _ _) as [d| |]; [|by intros [= _ <-]; apply grown_refl..].
  destruct (node_at (fs w) d) as [[]|]; try (by intros [= _ <-]; apply grown_refl).
  destruct (String.eqb c ".."); [by intros [= _ <-]; apply grown_refl|].
  destruct (node_at (fs w) (d ++ [c])) as [[]|] eqn:E;
    try (by intros [= _ <-]; apply grown_refl).
  all: intros [= _ <-]; repeat split; simpl; try done.
  all: try (intros loc' Hn; apply lookup_insert_ne; intros <-;
            apply Hn; rewrite last_last; apply list_elem_of_here).
  all: destruct (decide (loc = d ++ [c])) as [->|Hne];
    [ destruct d; simpl in *; rewrite ?lookup_insert_eq; rewrite ?E; congruence
    | destruct loc; simpl; [done|]; rewrite lookup_insert_ne by done; done ].
Qed.

Lemma os_path_isdir_eq (p : path) (w : world) :
  exists d, os_path_isdir p w = (Return d, w).
Proof.
  unfold os_path_isdir, try_except. rewrite path_is_dir_eq.
  destruct (locate w p) as [|? []|]; eauto.
Qed.

Lemma samefile_eq (p q : path) (w : world) : exists b, samefile p q w = (Return b, w).
Proof. unfold samefile. destruct (locate w p), (locate w q); eauto. Qed.

Lemma truediv_plain (p : path) (f : string) :
  plain f -> p // f = {| anchored := anchored p; parts := parts p ++ [f] |}.
Proof. intros [Hf _]. unfold truediv. by rewrite Hf. Qed.

Lemma name_truediv_plain (p : path) (f : string) : plain f -> name (p // f) = f.
Proof. intros Hf. rewrite truediv_plain by done. unfold name. simpl. apply last_last. Qed.

(** A copy creates or replaces one file, named as its source. *)
Lemma shutil_copy2_grown (src dst : path) (f : string) (w w' : world) (o : outcome unit) :
  plain f -> name src = f -> name dst = f ->
  shutil_copy2 src dst w = (o, w') -> grown [f] w w'.
Proof.
  intros Hf Hsrc Hdst. unfold shutil_copy2, bind.
  destruct (os_path_isdir_eq dst w) as [d ->].
  set (dst' := if d then dst // name src else dst).
  assert (Hname : List.last (parts dst') "" = f).
  { subst dst'. destruct d; [|exact Hdst]. rewrite Hsrc. by apply name_truediv_plain. }
  destruct (samefile_eq src dst' w) as [b ->].
  destruct b; [intros [= _ <-]; apply grown_refl|].
  rewrite open_read_eq.
  destruct (locate w src) as [|? []|]; try (intros [= _ <-]; apply grown_refl).
  intros H. apply open_write_grown in H. by rewrite Hname in H.
Qed.

Lemma locate_child_missing_grown (names : list string) (w w' : world) (dir : path) (f : string) :
  plain f -> f ∉ names -> grown names w w' ->
  locate w (dir // f) = Missing -> locate w' (dir // f) = Missing.
Proof.
  intros Hf Hn Hg. apply (locate_grown_missing names); [done|].
  rewrite truediv_plain by done. simpl. intros loc Hloc.
  apply walk_snoc_last in Hloc; [by subst | apply Hf].
Qed.

Lemma copy_each_grown (source_dir target_path : path) (files : list string) :
  Forall plain files ->
  forall w w' o, copy_each source_dir target_path files w = (o, w') -> grown files w w'.
Proof.
  induction 1 as [|f files Hf Hfiles IH]; intros w w' o; simpl.
  - intros [= _ <-]. apply grown_refl.
  - unfold bind. rewrite path_exists_eq.
    destruct (locate w (source_dir // f)); simpl; try (intros [= _ <-]; apply grown_refl).
    destruct (shutil_copy2 _ _ w) as [o1 w1] eqn:Hcopy.
    apply (shutil_copy2_grown _ _ f) in Hcopy; try done; try by apply name_truediv_plain.
    assert (Hg1 : grown (f :: files) w w1).
    { eapply grown_weaken; [|exact Hcopy].
      intros x Hx. apply list_elem_of_singleton in Hx as ->. apply list_elem_of_here. }
    destruct o1; [|by intros [= _ <-]].
    intros H2. apply IH in H2. eapply grown_trans; [exact Hg1|].
    eapply grown_weaken; [|exact H2]. intros x Hx. by apply list_elem_of_further.
Qed.

(** A successful run of the loop found every file in the tree it started
    from, whatever it copied on the way. *)
Lemma copy_each_success (source_dir target_path : path) (files : list string) :
  Forall plain files ->
  forall w w' msg,
    copy_each source_dir target_path files w = (Return (true, msg), w') ->
    forall f, f ∈ files -> exists loc n, locate w (source_dir // f) = Found loc n.
Proof.
  induction 1 as [|f files Hf Hfiles IH]; intros w w' msg; simpl.
  - intros _ f' Hin. by apply elem_of_nil in Hin.
  - unfold bind. rewrite path_exists_eq.
    destruct (locate w (source_dir // f)) as [|loc n|] eqn:Hloc; simpl; try done.
    destruct (shutil_copy2 _ _ w) as [o1 w1] eqn:Hcopy.
    apply (shutil_copy2_grown _ _ f) in Hcopy; try done; try by apply name_truediv_plain.
    destruct o1; [|done]. intros Hrest f' [->|Hin]%elem_of_cons; [eauto|].
    destruct (decide (f' = f)) as [->|Hne]; [eauto|].
    destruct (IH _ _ _ Hrest f' Hin) as (loc' & n' & Hfound).
    assert (Hf' : plain f') by (eapply Forall_forall in Hfiles; eauto).
    destruct (locate w (source_dir // f')) as [|loc0 n0|] eqn:E; [|eauto|].
    + apply (locate_child_missing_grown [f] w w1) in E; [congruence|done| |done].
      by intros ->%list_elem_of_singleton.
    + apply (locate_grown_refused [f] w w1) in E; [congruence | done].
Qed.

Lemma required_files_plain (module_file : string) :
  Forall plain (required_files (new_installer module_file)).
Proof. repeat constructor; done. Qed.

Lemma copy_required_files_returns (self : CustomNodeInstaller) (target_path : path) (w : world) :
  exists ok msg w', copy_required_files self target_path w = (Return (ok, msg), w').
Proof.
  unfold copy_required_files, try_except.
  destruct (bind _ _ w) as [[[ok msg]|e] w']; eauto.
Qed.

Lemma copy_required_files_success (self : CustomNodeInstaller) (target_path : path)
    (w w' : world) (msg : string) :
  Forall plain (required_files self) ->
  copy_required_files self target_path w = (Return (true, msg), w') ->
  (exists loc n, locate w (utils_dir self) = Found loc n)
  /\ (forall f, f ∈ required_files self ->
        exists loc n, locate w (utils_dir self // f) = Found loc n)
  /\ grown (required_files self) w w'.
Proof.
  intros Hplain. unfold copy_required_files, try_except, bind.
  rewrite path_exists_eq.
  destruct (locate w (utils_dir self)) as [|loc n|] eqn:Hu; simpl; try done.
  destruct (copy_each _ _ _ w) as [[[ok m]|e] w1] eqn:Hc; simpl; [|done].
  intros [= -> -> ->]. split; [eauto|]. split.
  - by eapply copy_each_success.
  - by eapply copy_each_grown.
Qed.

(** ** Lines of a file that holds clean URLs *)

Lemma url_char_plain (c : ascii) :
  url_char c = true -> is_space c = false /\ Ascii.eqb c LF = false /\ Ascii.eqb c CR = false.
Proof. destruct c as [[] [] [] [] [] [] [] []]; vm_compute; intros H; done. Qed.

Lemma universal_newlines_id (s : string) :
  all_chars (fun c => negb (Ascii.eqb c CR)) s = true -> universal_newlines s = s.
Proof.
  induction s as [|c s IH]; simpl; [done|].
  intros [Hc Hs]%andb_true_iff. apply negb_true_iff in Hc. rewrite Hc. f_equal. auto.
Qed.

Lemma all_chars_join (P : ascii -> bool) (sep : string) (l : list string) :
  all_chars P sep = true -> Forall (fun s => all_chars P s = true) l ->
  all_chars P (join sep l) = true.
Proof.
  intros Hsep. induction 1 as [|s l Hs Hl IH]; [done|].
  unfold join in *. simpl. destruct l as [|s' l]; [done|].
  by rewrite !all_chars_append, Hs, Hsep, IH.
Qed.

Lemma readlines_line (u s : string) :
  all_chars (fun c => negb (Ascii.eqb c LF)) u = true ->
  readlines (u +:+ String LF s) = (u +:+ nl) :: readlines s.
Proof.
  induction u as [|c u IH]; simpl; [done|].
  intros [Hc Hu]%andb_true_iff. apply negb_true_iff in Hc. by rewrite Hc, IH.
Qed.

Lemma readlines_last (u : string) :
  all_chars (fun c => negb (Ascii.eqb c LF)) u = true -> u <> "" -> readlines u = [u].
Proof.
  induction u as [|c u IH]; [done|]. simpl.
  intros [Hc Hu]%andb_true_iff _. apply negb_true_iff in Hc. rewrite Hc.
  destruct u as [|d u]; [done|]. by rewrite IH.
Qed.

Lemma rstrip_no_space (u : string) :
  all_chars (fun c => negb (is_space c)) u = true -> rstrip u = u.
Proof.
  induction u as [|c u IH]; simpl; [done|].
  intros [Hc Hu]%andb_true_iff. apply negb_true_iff in Hc. by rewrite Hc, IH.
Qed.

Lemma rstrip_no_space_newline (u : string) :
  all_chars (fun c => negb (is_space c)) u = true -> rstrip (u +:+ nl) = u.
Proof.
  induction u as [|c u IH]; simpl; [done|].
  intros [Hc Hu]%andb_true_iff. apply negb_true_iff in Hc. by rewrite Hc, IH.
Qed.

Lemma strip_no_space (u : string) :
  all_chars (fun c => negb (is_space c)) u = true ->
  strip u = u /\ (u <> "" -> strip (u +:+ nl) = u).
Proof.
  intros Hu. unfold strip. destruct u as [|c u]; [done|].
  pose proof Hu as [Hc _]%andb_true_iff. apply negb_true_iff in Hc.
  simpl lstrip. rewrite Hc. split; [by apply rstrip_no_space|].
  intros _. by apply (rstrip_no_space_newline (String c u)).
Qed.

Lemma clean_chars (P : ascii -> bool) (url : string) :
  (forall c, url_char c = true -> P c = true) -> clean url -> all_chars P url = true.
Proof. intros HP [_ H]. by eapply all_chars_impl. Qed.

Lemma clean_no_space (url : string) :
  clean url -> all_chars (fun c => negb (is_space c)) url = true.
Proof. apply clean_chars. intros c H. apply url_char_plain in H as (-> & _). done. Qed.

Lemma clean_no_newline (url : string) :
  clean url -> all_chars (fun c => negb (Ascii.eqb c LF)) url = true.
Proof. apply clean_chars. intros c H. apply url_char_plain in H as (_ & -> & _). done. Qed.

Lemma clean_no_return (url : string) :
  clean url -> all_chars (fun c => negb (Ascii.eqb c CR)) url = true.
Proof. apply clean_chars. intros c H. apply url_char_plain in H as (_ & _ & ->). done. Qed.

Lemma github_url_clean (u : string) : github_url u -> clean u.
Proof. intros H. split; [by apply github_url_nonempty | by apply github_url_chars]. Qed.

Lemma join_cons (sep u u' : string) (l : list string) :
  join sep (u :: u' :: l) = u +:+ sep +:+ join sep (u' :: l).
Proof. reflexivity. Qed.

(** Writing clean URLs one per line and reading the lines back gives the
    same URLs in the same order. *)
Lemma stripped_lines_join (urls : list string) :
  Forall clean urls -> stripped_lines (join nl urls) = urls.
Proof.
  intros Hclean. unfold stripped_lines, file_lines.
  rewrite universal_newlines_id.
  2:{ apply all_chars_join; [done|]. eapply Forall_impl; [exact Hclean|].
      apply clean_no_return. }
  induction Hclean as [|u urls Hu Hurls IH]; [done|].
  pose proof (strip_no_space u (clean_no_space u Hu)) as [Hs Hsn].
  destruct Hu as [Hne Hchars]. pose proof (clean_no_newline u (conj Hne Hchars)) as Hnl.
  destruct urls as [|u' urls].
  - change (join nl [u]) with u. rewrite readlines_last by done. simpl. rewrite Hs.
    apply is_empty_false in Hne. by rewrite Hne.
  - rewrite join_cons. change (u +:+ nl +:+ ?r) with (u +:+ String LF r).
    rewrite readlines_line by done. rewrite map_cons, Hsn by done.
    apply is_empty_false in Hne.
    change (List.filter ?f (u :: ?l)) with (if f u then u :: List.filter f l else List.filter f l).
    cbv beta. rewrite Hne. simpl negb. cbv iota. by rewrite IH.
Qed.

(** ** [save_repos] and reading the list back *)

Lemma open_write_locate (p : path) (data : string) (w w' : world) :
  open_write p data w = (Return tt, w') ->
  exists loc, locate w' p = Found loc (File data).
Proof.
  intros H. pose proof (open_write_grown _ _ _ _ _ H) as (Hc & _ & Hd & _).
  unfold open_write in H. destruct (parts p) as [|x xs] eqn:Hparts; [done|].
  set (c := List.last (x :: xs) "") in *.
  destruct (walk (fs w) (origin w p) (removelast (x :: xs))) as [d| |] eqn:Hw; try done.
  destruct (node_at (fs w) d) as [[]|] eqn:Hdnode; try done.
  destruct (String.eqb c "..") eqn:Hc2; [done|].
  assert (Hfs : fs w' = <[d ++ [c] := File data]> (fs w)).
  { destruct (node_at (fs w) (d ++ [c])) as [[]|]; try done; by injection H as <-. }
  exists (d ++ [c]). unfold locate, origin in *.
  rewrite Hc, (walk_same_dirs _ _ _ _ Hd), Hparts.
  rewrite (app_removelast_last (l := x :: xs) "") by done. fold c.
  rewrite walk_snoc, Hw, Hdnode. unfold enter. rewrite Hc2.
  replace (node_at (fs w') (d ++ [c])) with (Some (File data)); [done|].
  rewrite Hfs. destruct d; simpl; by rewrite lookup_insert_eq.
Qed.

Lemma validate_path_returns (dir : string) (w : world) :
  exists ok msg, validate_path dir w = (Return (ok, msg), w).
Proof.
  rewrite validate_path_eq.
  match goal with |- context [Return ?r] => destruct r as [ok msg] end. eauto.
Qed.

Lemma validate_path_true (dir msg : string) (w w' : world) :
  validate_path dir w = (Return (true, msg), w') ->
  w' = w /\ exists target, locate w (Path dir) = Found target Dir.
Proof.
  rewrite validate_path_eq. intros [= H <-]. split; [done|].
  destruct (all_chars is_space dir); [done|].
  destruct (locate w (Path dir)) as [|target []|]; try done. eauto.
Qed.

Lemma validate_path_fst (dir : string) (w : world) (r : bool * string) :
  fst (validate_path dir w) = Return r -> validate_path dir w = (Return r, w).
Proof.
  destruct (validate_path_returns dir w) as (ok & msg & ->). simpl. by intros ->.
Qed.

Lemma filter_all (A : Type) (f : A -> bool) (l : list A) :
  Forall (fun x => f x = true) l -> List.filter f l = l.
Proof. induction 1 as [|x l Hx Hl IH]; simpl; [done | by rewrite Hx, IH]. Qed.

Lemma validate_github_urls_true (repos : list string) :
  fst (fst (validate_github_urls repos)) = true ->
  repos <> [] /\ snd (validate_github_urls repos) = repos.
Proof.
  rewrite validate_github_urls_eq. destruct repos as [|u repos]; [done|].
  destruct (List.filter (fun u => negb (url_matches u)) (u :: repos)) eqn:E; [|done].
  intros _. split; [done|]. apply filter_negb_nil in E.
  change (List.filter url_matches (u :: repos) = u :: repos). by apply filter_all.
Qed.

Lemma save_repos_success (self : CustomNodeInstaller) (repos : list string)
    (dir msg : string) (w w' : world) :
  save_repos self repos dir w = (Return (true, msg), w') ->
  exists w1 m1,
    copy_required_files self (Path dir) w = (Return (true, m1), w1)
    /\ repos <> []
    /\ open_write (repos_file dir) (join nl repos) w1 = (Return tt, w').
Proof.
  unfold save_repos, bind.
  destruct (validate_path_returns dir w) as (ok & reason & ->).
  destruct ok; simpl; [|done].
  pose proof (validate_github_urls_true repos) as Hurls.
  destruct (validate_github_urls repos) as [[urls_valid urls_msg] valid_urls].
  destruct urls_valid; simpl; [|done]. destruct (Hurls eq_refl) as [Hne Hv]. simpl in Hv. subst.
  unfold try_except, bind.
  destruct (copy_required_files_returns self (Path dir) w) as (ok & m1 & w1 & ->).
  destruct ok; simpl; [|done]. fold (repos_file dir).
  destruct (open_write (repos_file dir) (join nl repos) w1) as [[[]|e] w2] eqn:Hw; simpl; [|done].
  intros [= <- <-]. eauto.
Qed.

(** URLs the pattern accepts and that do not end in a line feed come back
    from the file [save_repos] wrote, all of them, in their order. *)
Theorem save_repos_then_read (self : CustomNodeInstaller) (repos : list string)
    (dir msg file_path : string) (w w' : world) :
  Forall (fun url => url_matches url = true /\ ends_with LF url = false) repos ->
  save_repos self repos dir w = (Return (true, msg), w') ->
  names file_path (repos_file dir) ->
  read_urls_from_file file_path w'
  = (Return (true, "Successfully read " +:+ str_of_nat (length repos) +:+ " URLs from file", repos),
     w').
Proof.
  intros Hurls Hsave Hpath.
  apply save_repos_success in Hsave as (w1 & m1 & _ & Hne & Hwrite).
  apply open_write_locate in Hwrite as [loc Hloc].
  rewrite read_urls_from_file_eq, (os_locate_names _ _ _ Hpath), Hloc. cbv zeta.
  rewrite stripped_lines_join.
  - rewrite bool_decide_eq_false_2 by done. reflexivity.
  - eapply Forall_impl; [exact Hurls|]. intros url [Hm Hn].
    by apply github_url_clean, url_matches_no_newline.
Qed.

(** ** [install_nodes] *)

Lemma locate_anchored (w w' : world) (p : path) :
  anchored p = true -> fs w' = fs w -> locate w' p = locate w p.
Proof. intros Ha Hfs. unfold locate, origin. by rewrite Ha, Hfs. Qed.

Lemma os_chdir_eq (p : path) (w : world) :
  os_chdir p w
  = match locate w p with
    | Found loc Dir => (Return tt, set_cwd w loc)
    | Found _ _ => (Raise (not_a_directory p), w)
    | Missing => (Raise (no_such_file p), w)
    | Refused => (Raise (permission_denied p), w)
    end.
Proof. unfold os_chdir, bind, stat. by destruct (locate w p) as [|? []|]. Qed.

Lemma os_chdir_name_eq (s : string) (w : world) :
  os_chdir_name s w
  = match os_locate w s with
    | Found loc Dir => (Return tt, set_cwd w loc)
    | Found _ _ => (Raise ("[Errno 20] Not a directory: '" +:+ s +:+ "'"), w)
    | Missing => (Raise ("[Errno 2] No such file or directory: '" +:+ s +:+ "'"), w)
    | Refused => (Raise ("[Errno 13] Permission denied: '" +:+ s +:+ "'"), w)
    end.
Proof. unfold os_chdir_name, bind, os_stat. by destruct (os_locate w s) as [|? []|]. Qed.

Lemma walk_from_directory (m : gmap (list string) node) (cur cs loc : list string) :
  walk m cur cs = Reached loc -> node_at m loc = Some Dir -> node_at m cur = Some Dir.
Proof.
  destruct cs as [|c cs]; simpl.
  - by intros [= ->].
  - by destruct (node_at m cur) as [[]|].
Qed.

Lemma os_walk_directory (m : gmap (list string) node) (cs cur loc : list string) :
  walk m cur (List.filter is_component cs) = Reached loc ->
  node_at m loc = Some Dir ->
  os_walk m cur cs = Reached loc.
Proof.
  revert cur. induction cs as [|c cs IH]; intros cur Hw Hd; [done|].
  cbn [os_walk List.filter] in *. unfold os_enter. destruct (is_component c).
  - cbn [walk] in Hw. destruct (node_at m cur) as [[]|]; try done. by apply IH.
  - rewrite (walk_from_directory _ _ _ _ Hw Hd). by apply IH.
Qed.

(** A name that [Path] reads as a directory leads the operating system to
    that directory as it stands, trailing slash or not; the empty name
    leads nowhere. *)
Lemma os_locate_directory (w : world) (s : string) (loc : list string) :
  is_empty s = false ->
  locate w (Path s) = Found loc Dir ->
  os_locate w s = Found loc Dir.
Proof.
  intros Hs. unfold locate, os_locate, origin. rewrite Hs. cbn [Path anchored parts].
  destruct (walk _ _ _) as [l| |] eqn:Hw; [|done..].
  destruct (node_at (fs w) l) as [[]|] eqn:Hn; try done.
  intros [= <-]. by rewrite (os_walk_directory _ _ _ _ Hw Hn), Hn.
Qed.

Lemma validate_path_nonempty (dir msg : string) (w w' : world) :
  validate_path dir w = (Return (true, msg), w') -> is_empty dir = false.
Proof. destruct dir; [|done]. unfold validate_path, try_except. simpl. discriminate. Qed.

Lemma locate_found_node (w : world) (p : path) (loc : list string) (n : node) :
  locate w p = Found loc n -> node_at (fs w) loc = Some n.
Proof.
  unfold locate. destruct (walk _ _ _) as [l| |]; [|done..].
  destruct (node_at (fs w) l) as [[]|] eqn:E; intros [= <- <-]; done.
Qed.

Lemma os_getcwd_ok (w : world) :
  cwd_ok w -> os_getcwd w = (Return {| anchored := true; parts := cwd w |}, w).
Proof. intros H. unfold os_getcwd. by rewrite (locate_found_node _ _ _ _ H). Qed.

Section InstallProperties.

Variable sys_executable : string.
Variable child : call -> outcome CompletedProcess.

(** With the working directory on the target, the statements under
    [try: ... finally:] make the call there and come back. *)
Lemma run_script_finally (dir : string) (w : world) (target : list string) :
  cwd_ok w ->
  try_finally (run_script sys_executable child (clone_script dir))
              (os_chdir {| anchored := true; parts := cwd w |})
              (set_cwd w target)
  = (match child (script_call sys_executable target dir) with
     | Return result =>
         Return (Z.eqb (returncode result) 0, strip (formatted_output result))
     | Raise e => Raise e
     end, add_call w (script_call sys_executable target dir)).
Proof.
  intros Hcwd. unfold try_finally, run_script, bind, subprocess_run. simpl cwd.
  fold (script_call sys_executable target dir).
  set (c := script_call sys_executable target dir).
  assert (Hback : forall w2, fs w2 = fs w -> calls w2 = calls w ++ [c] ->
            os_chdir {| anchored := true; parts := cwd w |} w2 = (Return tt, add_call w c)).
  { intros w2 Hfs Hcalls. rewrite os_chdir_eq, (locate_anchored w w2) by done.
    unfold cwd_ok in Hcwd. rewrite Hcwd. unfold set_cwd, add_call. by rewrite Hfs, Hcalls. }
  destruct (child c) as [result|e]; unfold ret; by rewrite Hback.
Qed.

Lemma install_body_eq (dir : string) (w : world) (target : list string) :
  is_empty dir = false ->
  locate w (Path dir) = Found target Dir ->
  cwd_ok w ->
  install_body sys_executable child dir w
  = match locate w (clone_script dir) with
    | Missing =>
        (Return (false, "Error: clone-custom-nodes.py not found! Please save repository list first."), w)
    | Refused => (Raise (permission_denied (clone_script dir)), w)
    | Found _ _ =>
        (match child (script_call sys_executable target dir) with
         | Return result =>
             Return (Z.eqb (returncode result) 0, strip (formatted_output result))
         | Raise e => Raise e
         end,
         add_call w (script_call sys_executable target dir))
    end.
Proof.
  intros Hdir Htarget Hcwd. unfold install_body, bind. fold (clone_script dir).
  rewrite path_exists_eq. destruct (locate w (clone_script dir)); simpl; try done.
  rewrite os_getcwd_ok by done.
  by rewrite os_chdir_name_eq, (os_locate_directory _ _ _ Hdir Htarget), run_script_finally.
Qed.

Lemma install_nodes_eq (dir msg : string) (w : world) (target : list string) :
  validate_path dir w = (Return (true, msg), w) ->
  locate w (Path dir) = Found target Dir ->
  cwd_ok w ->
  install_nodes sys_executable child dir w
  = match locate w (clone_script dir) with
    | Missing =>
        (Return (false, "Error: clone-custom-nodes.py not found! Please save repository list first."), w)
    | Refused =>
        (Return (false, "Installation error: " +:+ permission_denied (clone_script dir)), w)
    | Found _ _ =>
        (Return match child (script_call sys_executable target dir) with
                | Return result =>
                    (Z.eqb (returncode result) 0, strip (formatted_output result))
                | Raise e => (false, "Installation error: " +:+ e)
                end,
         add_call w (script_call sys_executable target dir))
    end.
Proof.
  intros Hvalid Htarget Hcwd. unfold install_nodes, bind. rewrite Hvalid. simpl.
  unfold try_except.
  rewrite (install_body_eq dir w target) by (done || by eapply validate_path_nonempty).
  destruct (locate w (clone_script dir)); try done.
  by destruct (child (script_call sys_executable target dir)).
Qed.

Lemma install_nodes_invalid (dir msg : string) (w : world) :
  validate_path dir w = (Return (false, msg), w) ->
  install_nodes sys_executable child dir w = (Return (false, "Error: " +:+ msg), w).
Proof. intros H. unfold install_nodes, bind. by rewrite H. Qed.

End InstallProperties.

(** * Main results *)

(** ** URL validation *)

(** Claim C1, evaluated where it fails: the URL
    [https://github.com/owner/repo] followed by one line feed does not end at
    the repo segment or the trailing slash, so it is not of the shape the
    pattern is meant to fix, yet [validate_github_urls] classifies it as valid
    and returns it in the valid subset. *)
Theorem validate_github_urls_newline_url :
  let url := "https://github.com/owner/repo" +:+ nl in
  ~ github_url url
  /\ validate_github_urls [url] = (true, "All URLs are valid", [url]).
Proof. split; [apply newline_not_github_url | reflexivity]. Qed.

(** Claim C2 as stated fails: a URL whose owner segment has a dot is of the
    shape the data model words (one character set for both segments), and
    [validate_github_urls] reports it invalid. *)
Lemma dotted_owner_rejected :
  github_url_loose "https://github.com/some.owner/repo"
  /\ validate_github_urls ["https://github.com/some.owner/repo"]
     = (false, "Invalid GitHub URLs found:" +:+ nl +:+ "https://github.com/some.owner/repo", []).
Proof.
  split; [|reflexivity].
  by apply (url_shape_intro repo_char repo_char "some.owner" "repo" ""); auto.
Qed.

(** Claim C2, amended: among the strings passed to [validate_github_urls], one
    that does not end in a line feed is accepted if and only if it is
    [https://github.com/<owner>/<repo>] with an optional trailing slash, the
    owner segment made of letters, digits and hyphens and the repo segment of
    letters, digits, hyphens, dots and underscores; a URL whose owner segment
    has any other character, a dot or an underscore for one, is rejected. *)
Theorem validate_github_urls_accepts_shape (urls : list string) (url : string) :
  url ∈ urls ->
  (ends_with LF url = false ->
     (url ∈ snd (validate_github_urls urls) <-> github_url url))
  /\ (forall owner rest,
        url = "https://github.com/" +:+ owner +:+ "/" +:+ rest ->
        all_chars (fun c => negb (Ascii.eqb c "/")) owner = true ->
        all_chars owner_char owner = false ->
        url ∉ snd (validate_github_urls urls)).
Proof.
  intros Hin. split.
  - intros Hn. rewrite elem_of_validated, <- (url_matches_no_newline url Hn). tauto.
  - intros owner rest -> Hseg Hbad [_ Hm]%elem_of_validated.
    by rewrite bad_owner_rejected in Hm.
Qed.

Lemma validate_github_urls_accepts_shape_witness :
  ("https://github.com/foo/bar" ∈ snd (validate_github_urls ["https://github.com/foo/bar"; "not-a-url"])
   <-> github_url "https://github.com/foo/bar")
  /\ "https://github.com/some.owner/repo" ∉ snd (validate_github_urls ["https://github.com/some.owner/repo"]).
Proof.
  split.
  - apply (proj1 (validate_github_urls_accepts_shape
                    ["https://github.com/foo/bar"; "not-a-url"] "https://github.com/foo/bar"
                    (list_elem_of_here _ _))).
    reflexivity.
  - apply (proj2 (validate_github_urls_accepts_shape
                    ["https://github.com/some.owner/repo"] "https://github.com/some.owner/repo"
                    (list_elem_of_here _ _)) "some.owner" "repo"); reflexivity.
Defined.

(** Claim C3: on the empty list [validate_github_urls] fails with the reason
    that no URLs were provided and an empty subset; on a list in which a URL
    fails the pattern it fails, the message lists the failing URLs in their
    order, one per line, and the matching URLs are returned with it; it
    succeeds exactly when the list is not empty and every URL matches. *)
Theorem validate_github_urls_all_or_nothing (urls : list string) :
  let valid := List.filter url_matches urls in
  let invalid := List.filter (fun url => negb (url_matches url)) urls in
  validate_github_urls [] = (false, "No repository URLs provided", [])
  /\ ((exists url, url ∈ urls /\ url_matches url = false) ->
        validate_github_urls urls
        = (false, "Invalid GitHub URLs found:" +:+ nl +:+ join nl invalid, valid))
  /\ (fst (fst (validate_github_urls urls)) = true
        <-> urls <> [] /\ Forall (fun url => url_matches url = true) urls).
Proof.
  cbv zeta. split; [done|]. split.
  - intros (url & Hin & Hbad). rewrite validate_github_urls_eq.
    destruct urls as [|u urls]; [by apply elem_of_nil in Hin|].
    destruct (List.filter (fun url => negb (url_matches url)) (u :: urls)) eqn:E; [|done].
    apply filter_negb_nil in E. rewrite Forall_forall in E. apply E in Hin. congruence.
  - rewrite validate_github_urls_eq.
    destruct urls as [|u urls]; [simpl; split; [done | by intros [? _]]|].
    rewrite <- filter_negb_nil.
    destruct (List.filter (fun url => negb (url_matches url)) (u :: urls));
      simpl; split; try done. by intros [_ ?].
Qed.

Lemma validate_github_urls_all_or_nothing_witness :
  validate_github_urls ["https://github.com/foo/bar"; "not-a-url"]
  = (false, "Invalid GitHub URLs found:" +:+ nl +:+ "not-a-url", ["https://github.com/foo/bar"]).
Proof.
  destruct (validate_github_urls_all_or_nothing ["https://github.com/foo/bar"; "not-a-url"])
    as (_ & H & _).
  apply H. exists "not-a-url". split; [|reflexivity].
  apply list_elem_of_further, list_elem_of_here.
Defined.

(** Claim C10: a URL of the shape followed by a single line feed does not end
    at the repo segment or the trailing slash and still is classified as
    valid, because [$] also matches just before a final line feed;
    [https://github.com/owner/repo] with a line feed is such an input. *)
Theorem trailing_newline_url_accepted (u : string) :
  github_url u ->
  ~ github_url (u +:+ nl)
  /\ url_matches (u +:+ nl) = true
  /\ validate_github_urls [u +:+ nl] = (true, "All URLs are valid", [u +:+ nl]).
Proof.
  intros Hu. split; [apply newline_not_github_url|].
  pose proof (url_matches_newline u Hu) as Hm. split; [done|].
  by rewrite validate_single, Hm.
Qed.

Lemma trailing_newline_url_accepted_witness :
  ~ github_url ("https://github.com/owner/repo" +:+ nl)
  /\ url_matches ("https://github.com/owner/repo" +:+ nl) = true
  /\ validate_github_urls ["https://github.com/owner/repo" +:+ nl]
     = (true, "All URLs are valid", ["https://github.com/owner/repo" +:+ nl]).
Proof.
  apply (trailing_newline_url_accepted "https://github.com/owner/repo").
  by apply (url_shape_intro owner_char repo_char "owner" "repo" ""); auto.
Defined.

(** ** Path validation *)

(** Claim C7: [validate_path] makes its checks in a fixed order and the first
    failing one gives the reason: blank input, a path that does not exist, a
    path that is not a directory, a directory not named [custom_nodes], a
    directory whose parent has no [main.py]; a path that passes the five is
    valid.  The world is left as it was, and nothing is raised: an error of
    the file system becomes the reason of a failure. *)
Theorem validate_path_first_failing_check (w : world) (path : string) :
  exists ok reason,
    validate_path path w = (Return (ok, reason), w) /\ path_verdict w path ok reason.
Proof.
  rewrite validate_path_eq.
  destruct (all_chars is_space path) eqn:Hblank.
  { eexists _, _. split; [reflexivity | by constructor]. }
  destruct (locate w (Path path)) as [|loc n|] eqn:Hp.
  - eexists _, _. split; [reflexivity | by constructor].
  - destruct n as [content| |].
    + eexists _, _. split; [reflexivity | by econstructor].
    + destruct (String.eqb_spec (name (Path path)) "custom_nodes") as [Hn|Hn].
      * destruct (locate w (marker path)) eqn:Hm; eexists _, _;
          (split; [reflexivity | by econstructor]).
      * eexists _, _. split; [reflexivity | by econstructor].
    + by apply locate_not_denied in Hp.
  - eexists _, _. split; [reflexivity | by constructor].
Qed.

(** ** Reading the URL list *)

(** Claim C8: [read_urls_from_file] fails on a missing file, that is, when
    the name it is given, as the operating system resolves it, leads to
    nothing; on a file it takes the lines in order, strips each and drops
    those that are then empty; it fails with the reason that no URLs were
    found when none is left, and otherwise succeeds with all of them,
    whatever they look like. *)
Theorem read_urls_from_file_lines (file_path : string) (w : world) :
  (os_locate w file_path = Missing ->
     read_urls_from_file file_path w
     = (Return (false, "File not found: " +:+ file_path, []), w))
  /\ (forall loc content,
        os_locate w file_path = Found loc (File content) ->
        let urls := stripped_lines content in
        (urls = [] ->
           read_urls_from_file file_path w
           = (Return (false, "No URLs found in the file", []), w))
        /\ (urls <> [] ->
              read_urls_from_file file_path w
              = (Return (true,
                         "Successfully read " +:+ str_of_nat (length urls) +:+ " URLs from file",
                         urls), w))).
Proof.
  split.
  - intros H. by rewrite read_urls_from_file_eq, H.
  - intros loc content H urls. rewrite read_urls_from_file_eq, H. subst urls. cbv zeta. split.
    + intros Hnil. by rewrite bool_decide_eq_true_2.
    + intros Hne. by rewrite bool_decide_eq_false_2.
Qed.

Lemma read_urls_from_file_lines_witness :
  read_urls_from_file "/home/missing.txt" sample_world
  = (Return (false, "File not found: /home/missing.txt", []), sample_world)
  /\ read_urls_from_file "/home/urls.txt/" sample_world
     = (Return (false, "File not found: /home/urls.txt/", []), sample_world)
  /\ read_urls_from_file "urls.txt" sample_world
     = (Return (true, "Successfully read 2 URLs from file",
                ["https://github.com/foo/bar"; "not-a-url"]), sample_world)
  /\ read_urls_from_file "./classic.txt" classic_world
     = (Return (true, "Successfully read 3 URLs from file",
                ["https://github.com/foo/bar"; "x"; "y"]), classic_world).
Proof.
  split; [|split; [|split]].
  - apply (proj1 (read_urls_from_file_lines "/home/missing.txt" sample_world)).
    vm_compute. reflexivity.
  - apply (proj1 (read_urls_from_file_lines "/home/urls.txt/" sample_world)).
    vm_compute. reflexivity.
  - refine (proj2 (proj2 (read_urls_from_file_lines "urls.txt" sample_world)
                     ["home"; "urls.txt"] sample_urls_file _) _).
    + vm_compute. reflexivity.
    + vm_compute. discriminate.
  - refine (proj2 (proj2 (read_urls_from_file_lines "./classic.txt" classic_world)
                     ["home"; "classic.txt"]
                     ("https://github.com/foo/bar" +:+ String CR (String CR "")
                      +:+ " x" +:+ String CR nl +:+ "y") _) _).
    + vm_compute. reflexivity.
    + vm_compute. discriminate.
Defined.

(** ** Staging the bundled files *)

(** Claim C9: [copy_required_files] returns a failure whenever the bundled
    directory or any one of the three required files is absent from the tree
    it starts from, whatever it has copied before it finds the absence; it
    returns success only if the directory and every required file exist. *)
Theorem copy_required_files_all_or_failure (module_file : string) (target_path : path)
    (w : world) :
  let self := new_installer module_file in
  exists ok msg w',
    copy_required_files self target_path w = (Return (ok, msg), w')
    /\ (locate w (utils_dir self) = Missing -> ok = false)
    /\ (forall file, file ∈ required_files self ->
          locate w (utils_dir self // file) = Missing -> ok = false)
    /\ (ok = true ->
          (exists loc n, locate w (utils_dir self) = Found loc n)
          /\ forall file, file ∈ required_files self ->
               exists loc n, locate w (utils_dir self // file) = Found loc n).
Proof.
  intros self.
  destruct (copy_required_files_returns self target_path w) as (ok & msg & w' & H).
  exists ok, msg, w'. split; [done|].
  assert (Hok : ok = true ->
            (exists loc n, locate w (utils_dir self) = Found loc n)
            /\ forall file, file ∈ required_files self ->
                 exists loc n, locate w (utils_dir self // file) = Found loc n).
  { intros ->. apply copy_required_files_success in H as (Hu & Hf & _); [done|].
    apply required_files_plain. }
  split; [|split; [|done]].
  - intros Hm. destruct ok; [|done]. destruct (Hok eq_refl) as [(loc & n & Hu) _]. congruence.
  - intros file Hin Hm. destruct ok; [|done].
    destruct (Hok eq_refl) as [_ Hf]. destruct (Hf file Hin) as (loc & n & Hfound). congruence.
Qed.

Lemma copy_required_files_all_or_failure_witness :
  exists msg w',
    copy_required_files sample_installer (Path "/comfy/custom_nodes") incomplete_world
    = (Return (false, msg), w')
    /\ locate w' (Path "/comfy/custom_nodes/package-preparation.py")
       = Found ["comfy"; "custom_nodes"; "package-preparation.py"] (File "prepare").
Proof.
  destruct (copy_required_files_all_or_failure "/opt/tool/auto_node_cli.py"
              (Path "/comfy/custom_nodes") incomplete_world)
    as (ok & msg & w' & Heq & _ & Hfile & _).
  assert (Hok : ok = false).
  { apply (Hfile "start-prep.bat").
    - do 2 apply list_elem_of_further. apply list_elem_of_here.
    - vm_compute. reflexivity. }
  subst ok. exists msg, w'. split; [exact Heq|].
  change (new_installer "/opt/tool/auto_node_cli.py") with sample_installer in Heq.
  assert (Hw : w' = snd (copy_required_files sample_installer (Path "/comfy/custom_nodes")
                           incomplete_world)) by (by rewrite Heq).
  rewrite Hw. vm_compute. reflexivity.
Defined.

(** ** Persisting the list *)

(** Claim C4, evaluated where it fails: the one-element list holding
    [https://github.com/owner/repo] followed by a line feed matches the
    pattern and [save_repos] persists it, but reading the file back gives the
    URL without its line feed, not the URL that was saved.  For URLs that
    match and do not end in a line feed, [save_repos_then_read] proves the
    round trip. *)
Theorem save_repos_newline_url_lost :
  let url := "https://github.com/owner/repo" +:+ nl in
  let saved := save_repos sample_installer [url] "/comfy/custom_nodes" sample_world in
  url_matches url = true
  /\ fst saved = Return (true, "Repository list and required files saved successfully!")
  /\ fst (read_urls_from_file "/comfy/custom_nodes/comfy-repos.txt" (snd saved))
     = Return (true, "Successfully read 1 URLs from file", ["https://github.com/owner/repo"])
  /\ ["https://github.com/owner/repo"] <> [url].
Proof.
  cbv zeta. split; [reflexivity|].
  split; [vm_compute; reflexivity|]. split; [vm_compute; reflexivity | discriminate].
Qed.

(** ** Running the installation *)

(** Claim C5: whenever [install_nodes] reaches the call of the clone script,
    the call is made with the target directory as working directory, and
    afterwards the working directory is the one it was before, whether the
    script exited with zero, exited with another code, or could not be
    invoked at all. *)
Theorem install_nodes_restores_cwd (sys_executable : string)
    (child : call -> outcome CompletedProcess) (dir : string) (w w' : world)
    (r : outcome (bool * string)) :
  cwd_ok w ->
  install_nodes sys_executable child dir w = (r, w') ->
  calls w' <> calls w ->
  exists target,
    locate w (Path dir) = Found target Dir
    /\ calls w' = calls w ++ [script_call sys_executable target dir]
    /\ call_cwd (script_call sys_executable target dir) = target
    /\ cwd w' = cwd w
    /\ fs w' = fs w.
Proof.
  intros Hcwd Hrun Hcalls.
  destruct (validate_path_returns dir w) as (ok & msg & Hv). destruct ok.
  - destruct (validate_path_true _ _ _ _ Hv) as [_ [target Ht]].
    rewrite (install_nodes_eq _ _ _ _ _ target Hv Ht Hcwd) in Hrun.
    destruct (locate w (clone_script dir)); injection Hrun as <- <-; try done.
    by exists target.
  - rewrite (install_nodes_invalid _ _ _ _ _ Hv) in Hrun. by injection Hrun as <- <-.
Qed.

Lemma install_nodes_restores_cwd_witness :
  cwd (snd (install_nodes "python" (child_exit 0) "/comfy/custom_nodes" staged_world)) = ["home"]
  /\ cwd (snd (install_nodes "python" (child_exit 1) "/comfy/custom_nodes" staged_world)) = ["home"]
  /\ cwd (snd (install_nodes "python" child_unavailable "/comfy/custom_nodes" staged_world))
     = ["home"].
Proof.
  assert (Hcwd : cwd_ok staged_world) by (vm_compute; reflexivity).
  assert (H : forall child,
            calls (snd (install_nodes "python" child "/comfy/custom_nodes" staged_world))
            <> calls staged_world ->
            cwd (snd (install_nodes "python" child "/comfy/custom_nodes" staged_world))
            = ["home"]).
  { intros child Hcalls.
    destruct (install_nodes_restores_cwd "python" child "/comfy/custom_nodes" staged_world
                _ _ Hcwd (surjective_pairing _) Hcalls) as (target & _ & _ & _ & -> & _).
    reflexivity. }
  split; [|split]; apply H; vm_compute; discriminate.
Defined.

(** Claim C6: in a valid target directory without the staged clone script
    [install_nodes] fails and tells the user to save the repository list
    first.  With the script there, a completed run is a normal result of the
    guarded statements whose flag is true exactly when the exit code is zero,
    so a non-zero exit is returned, not raised; a script that cannot be
    invoked raises, and the handler turns the exception into a failure
    result. *)
Theorem install_nodes_result (sys_executable : string)
    (child : call -> outcome CompletedProcess) (dir msg : string) (w : world)
    (target : list string) :
  validate_path dir w = (Return (true, msg), w) ->
  locate w (Path dir) = Found target Dir ->
  cwd_ok w ->
  let c := script_call sys_executable target dir in
  (locate w (clone_script dir) = Missing ->
     install_nodes sys_executable child dir w
     = (Return (false, "Error: clone-custom-nodes.py not found! Please save repository list first."),
        w))
  /\ (forall loc n, locate w (clone_script dir) = Found loc n ->
        (forall result, child c = Return result ->
           let report := strip (formatted_output result) in
           install_body sys_executable child dir w
           = (Return (Z.eqb (returncode result) 0, report), add_call w c)
           /\ install_nodes sys_executable child dir w
              = (Return (Z.eqb (returncode result) 0, report), add_call w c)
           /\ (Z.eqb (returncode result) 0 = true <-> returncode result = 0%Z))
        /\ (forall e, child c = Raise e ->
              install_body sys_executable child dir w = (Raise e, add_call w c)
              /\ install_nodes sys_executable child dir w
                 = (Return (false, "Installation error: " +:+ e), add_call w c))).
Proof.
  intros Hv Ht Hcwd c.
  rewrite (install_nodes_eq _ _ _ _ _ target Hv Ht Hcwd),
          (install_body_eq _ _ _ _ target (validate_path_nonempty _ _ _ _ Hv) Ht Hcwd).
  fold c.
  split; [by intros ->|]. intros loc n ->. split.
  - intros result ->. repeat split; try done; apply Z.eqb_eq.
  - by intros e ->.
Qed.

Lemma install_nodes_result_witness :
  install_nodes "python" (child_exit 1) "/comfy/custom_nodes" sample_world
  = (Return (false, "Error: clone-custom-nodes.py not found! Please save repository list first."),
     sample_world)
  /\ fst (install_nodes "python" (child_exit 1) "/comfy/custom_nodes" staged_world)
     = Return (false, "cloned" +:+ nl +:+ nl +:+ times 50 "=" +:+ nl
                      +:+ "Installation process completed!")
  /\ fst (install_nodes "python" child_unavailable "/comfy/custom_nodes" staged_world)
     = Return (false, "Installation error: [Errno 2] No such file or directory: 'python'").
Proof.
  assert (Hvalid : forall w,
            fst (validate_path "/comfy/custom_nodes" w) = Return (true, "Path is valid") ->
            validate_path "/comfy/custom_nodes" w = (Return (true, "Path is valid"), w))
    by (intros w; apply validate_path_fst).
  split; [|split].
  - refine (proj1 (install_nodes_result "python" (child_exit 1) "/comfy/custom_nodes"
                     "Path is valid" sample_world ["comfy"; "custom_nodes"] _ _ _) _);
      [apply Hvalid|..]; vm_compute; reflexivity.
  - refine (eq_trans (f_equal fst (proj1 (proj2 (proj1 (proj2
              (install_nodes_result "python" (child_exit 1) "/comfy/custom_nodes"
                 "Path is valid" staged_world ["comfy"; "custom_nodes"] _ _ _)
              ["comfy"; "custom_nodes"; "clone-custom-nodes.py"] (File "clone") _)
              {| returncode := 1; stdout := "cloned"; stderr := "" |} eq_refl)))) _);
      [apply Hvalid|..]; vm_compute; reflexivity.
  - refine (eq_trans (f_equal fst (proj2 (proj2 (proj2
              (install_nodes_result "python" child_unavailable "/comfy/custom_nodes"
                 "Path is valid" staged_world ["comfy"; "custom_nodes"] _ _ _)
              ["comfy"; "custom_nodes"; "clone-custom-nodes.py"] (File "clone") _)
              "[Errno 2] No such file or directory: 'python'" eq_refl))) _);
      [apply Hvalid|..]; vm_compute; reflexivity.
Defined.

(** * Further properties *)

(** ** The language of the pattern *)

(** X1: the pattern of [validate_github_urls] accepts exactly the URLs
    [https://github.com/<owner>/<repo>] with an optional trailing slash, and
    those URLs followed by one line feed; nothing else. *)
Theorem github_pattern_language (url : string) :
  url_matches url = true
  <-> github_url url \/ exists u, github_url u /\ url = u +:+ nl.
Proof.
  rewrite url_matches_iff. split.
  - intros (u & e & Hu & [-> | ->] & ->).
    + left. by rewrite append_empty_r.
    + right. eauto.
  - intros [Hu | (u & Hu & ->)].
    + exists url, "". rewrite append_empty_r. auto.
    + exists u, nl. auto.
Qed.

(** ** What [validate_github_urls] returns *)

(** X2: when [validate_github_urls] succeeds, the list it returns is the list
    it was given, in the same order and with its duplicates, and the list is
    not empty. *)
Theorem validate_github_urls_success_identity (urls valid : list string) (message : string) :
  validate_github_urls urls = (true, message, valid) ->
  valid = urls /\ urls <> [] /\ message = "All URLs are valid".
Proof.
  intros H. pose proof (validate_github_urls_true urls) as Ht. rewrite H in Ht.
  destruct (Ht eq_refl) as [Hne Hv]. simpl in Hv. repeat split; try done.
  rewrite validate_github_urls_eq in H. destruct urls as [|u urls]; [done|].
  destruct (List.filter (fun u => negb (url_matches u)) (u :: urls)); by injection H.
Qed.

Lemma validate_github_urls_success_identity_witness :
  ["https://github.com/foo/bar"; "https://github.com/foo/bar"]
  = ["https://github.com/foo/bar"; "https://github.com/foo/bar"]
  /\ ["https://github.com/foo/bar"; "https://github.com/foo/bar"] <> []
  /\ "All URLs are valid" = "All URLs are valid".
Proof.
  apply (validate_github_urls_success_identity
           ["https://github.com/foo/bar"; "https://github.com/foo/bar"]).
  reflexivity.
Defined.

Lemma filter_filter_negb (urls : list string) :
  List.filter (fun u => negb (url_matches u)) (List.filter url_matches urls) = [].
Proof.
  induction urls as [|u urls IH]; [done|]. simpl.
  destruct (url_matches u) eqn:E; [|done]. simpl. by rewrite E.
Qed.

(** X3: the valid subset [validate_github_urls] returns beside a failure
    passes validation as a whole when it is validated again, provided it is
    not empty. *)
Theorem validated_subset_revalidates (urls : list string) :
  snd (validate_github_urls urls) <> [] ->
  validate_github_urls (snd (validate_github_urls urls))
  = (true, "All URLs are valid", snd (validate_github_urls urls)).
Proof.
  intros Hne. destruct urls as [|u urls]; [done|].
  rewrite validate_github_urls_subset in * by done.
  remember (List.filter url_matches (u :: urls)) as valid eqn:E.
  assert (Hall : Forall (fun url => url_matches url = true) valid).
  { subst valid. apply filter_negb_nil, filter_filter_negb. }
  rewrite validate_github_urls_eq. destruct valid as [|v valid']; [done|].
  rewrite (proj2 (filter_negb_nil _) Hall). by rewrite filter_all.
Qed.

Lemma validated_subset_revalidates_witness :
  validate_github_urls
    (snd (validate_github_urls ["not-a-url"; "https://github.com/foo/bar"; "x"; "https://github.com/a/b/"]))
  = (true, "All URLs are valid",
     snd (validate_github_urls ["not-a-url"; "https://github.com/foo/bar"; "x"; "https://github.com/a/b/"])).
Proof.
  apply (validated_subset_revalidates
           ["not-a-url"; "https://github.com/foo/bar"; "x"; "https://github.com/a/b/"]).
  vm_compute. discriminate.
Defined.

(** ** What [read_urls_from_file] returns *)

Lemma rstrip_end (c : ascii) (s : string) :
  is_space c = true -> ends_with c (rstrip s) = false.
Proof.
  intros Hc. induction s as [|a s IH]; [done|]. simpl.
  destruct (is_space a) eqn:Ha; simpl.
  - destruct (rstrip s) as [|b r] eqn:E; [done|]. simpl in *. exact IH.
  - destruct (rstrip s) as [|b r] eqn:E; simpl in *.
    + apply Ascii.eqb_neq. intros ->. congruence.
    + exact IH.
Qed.

Lemma rstrip_idempotent (s : string) : rstrip (rstrip s) = rstrip s.
Proof.
  induction s as [|a s IH]; [done|]. simpl.
  destruct (is_space a && is_empty (rstrip s)) eqn:E; [done|].
  simpl. by rewrite IH, E.
Qed.

Lemma lstrip_fixed (s : string) :
  match s with
  | EmptyString => True
  | String c _ => is_space c = false
  end -> lstrip s = s.
Proof. destruct s as [|c s]; simpl; [done | by intros ->]. Qed.

Lemma lstrip_head (s : string) :
  match lstrip s with
  | EmptyString => True
  | String c _ => is_space c = false
  end.
Proof.
  induction s as [|c s IH]; simpl; [done|].
  destruct (is_space c) eqn:E; [exact IH | exact E].
Qed.

Lemma rstrip_head (s : string) :
  match s with
  | EmptyString => True
  | String c _ => is_space c = false
  end ->
  match rstrip s with
  | EmptyString => True
  | String c _ => is_space c = false
  end.
Proof. destruct s as [|c s]; simpl; [done|]. intros Hc. by rewrite Hc. Qed.

Lemma strip_idempotent (s : string) : strip (strip s) = strip s.
Proof.
  unfold strip. rewrite (lstrip_fixed (rstrip (lstrip s))).
  - apply rstrip_idempotent.
  - apply rstrip_head, lstrip_head.
Qed.

Lemma read_urls_from_file_true (file_path message : string) (urls : list string)
    (w w' : world) :
  read_urls_from_file file_path w = (Return (true, message, urls), w') ->
  w' = w /\ urls <> []
  /\ exists loc content,
       os_locate w file_path = Found loc (File content) /\ urls = stripped_lines content.
Proof.
  rewrite read_urls_from_file_eq. intros [= H <-]. split; [done|].
  destruct (os_locate w file_path) as [|loc [content| |]|]; try done.
  cbv zeta in H. destruct (bool_decide _) eqn:Hd; [done|].
  injection H as _ <-. apply bool_decide_eq_false in Hd. eauto.
Qed.

Lemma stripped_lines_end (content : string) (c : ascii) :
  is_space c = true ->
  Forall (fun url => ends_with c url = false) (stripped_lines content).
Proof.
  intros Hc. eapply Forall_impl; [apply stripped_lines_clean|]. cbv beta.
  intros url (_ & line & _ & ->). unfold strip. by apply rstrip_end.
Qed.

Lemma pair_of_fst (A B : Type) (x : A * B) (a : A) : fst x = a -> x = (a, snd x).
Proof. destruct x. simpl. by intros ->. Qed.

(** X4: every URL [read_urls_from_file] returns is a stripped line: it is not
    empty, stripping it again changes nothing, and it does not end in a
    whitespace character, a line feed in particular; the world is as it was. *)
Theorem read_urls_from_file_stripped (file_path message : string) (urls : list string)
    (w w' : world) :
  read_urls_from_file file_path w = (Return (true, message, urls), w') ->
  w' = w
  /\ urls <> []
  /\ Forall (fun url => url <> "" /\ strip url = url
                        /\ forall c, is_space c = true -> ends_with c url = false) urls.
Proof.
  intros H. apply read_urls_from_file_true in H as (-> & Hne & loc & content & _ & ->).
  split; [done|]. split; [done|].
  eapply Forall_impl; [apply stripped_lines_clean|]. cbv beta.
  intros url (Hu & line & _ & ->). split; [done|]. split; [apply strip_idempotent|].
  intros c Hc. unfold strip. by apply rstrip_end.
Qed.

Lemma read_urls_from_file_stripped_witness :
  sample_world = sample_world
  /\ ["https://github.com/foo/bar"; "not-a-url"] <> []
  /\ Forall (fun url => url <> "" /\ strip url = url
                        /\ forall c, is_space c = true -> ends_with c url = false)
            ["https://github.com/foo/bar"; "not-a-url"].
Proof.
  apply (read_urls_from_file_stripped "urls.txt" "Successfully read 2 URLs from file").
  rewrite read_urls_from_file_eq. f_equal.
Defined.

(** ** Reading, validating, persisting *)

Lemma read_then_validate (file_path message : string) (urls : list string) (w w' : world) :
  read_urls_from_file file_path w = (Return (true, message, urls), w') ->
  fst (fst (validate_github_urls urls)) = true ->
  Forall (fun url => url_matches url = true /\ ends_with LF url = false) urls.
Proof.
  intros Hread Hvalid.
  apply read_urls_from_file_true in Hread as (_ & _ & loc & content & _ & ->).
  rewrite validate_github_urls_eq in Hvalid.
  destruct (stripped_lines content) as [|u urls] eqn:E; [done|]. rewrite <- E in *.
  destruct (List.filter (fun u => negb (url_matches u)) (stripped_lines content)) eqn:F.
  2:{ by rewrite E in Hvalid. }
  apply filter_negb_nil in F.
  pose proof (stripped_lines_end content LF eq_refl) as Hend.
  rewrite Forall_forall in *. intros url Hin. split; auto.
Qed.

(** X5: a list read by [read_urls_from_file] and accepted by
    [validate_github_urls] holds only URLs
    [https://github.com/<owner>/<repo>] with an optional trailing slash and
    nothing after it: a line read from a file never ends in the line feed the
    pattern would let through. *)
Theorem read_then_validate_strict (file_path message : string) (urls : list string)
    (w w' : world) :
  read_urls_from_file file_path w = (Return (true, message, urls), w') ->
  fst (fst (validate_github_urls urls)) = true ->
  Forall github_url urls /\ snd (validate_github_urls urls) = urls.
Proof.
  intros Hread Hvalid. split.
  - eapply Forall_impl; [by eapply read_then_validate|]. cbv beta.
    intros url [Hm Hn]. by apply url_matches_no_newline.
  - by apply validate_github_urls_true.
Qed.

Lemma read_then_validate_strict_witness :
  Forall github_url ["https://github.com/foo/bar"; "https://github.com/a/b/"]
  /\ snd (validate_github_urls ["https://github.com/foo/bar"; "https://github.com/a/b/"])
     = ["https://github.com/foo/bar"; "https://github.com/a/b/"].
Proof.
  apply (read_then_validate_strict "good.txt" "Successfully read 2 URLs from file" _
           listed_world listed_world).
  - rewrite read_urls_from_file_eq. f_equal.
  - reflexivity.
Defined.

(** X6: the round trip of the command line: a list read from a file and
    accepted by [validate_github_urls], once persisted by [save_repos], is
    read back as the same list in the same order from any name of the
    persisted file, a name being a string that [Path] reads as that file and
    that does not end in a slash or in a [.] component (which would ask the
    operating system for a directory). *)
Theorem read_validate_save_read (self : CustomNodeInstaller) (file_path message : string)
    (urls : list string) (dir saved_message persisted : string) (w w0 w' : world) :
  read_urls_from_file file_path w = (Return (true, message, urls), w0) ->
  fst (fst (validate_github_urls urls)) = true ->
  save_repos self urls dir w = (Return (true, saved_message), w') ->
  names persisted (repos_file dir) ->
  read_urls_from_file persisted w'
  = (Return (true, "Successfully read " +:+ str_of_nat (length urls) +:+ " URLs from file", urls),
     w').
Proof.
  intros Hread Hvalid Hsave Hpath.
  eapply save_repos_then_read; [|exact Hsave|exact Hpath].
  by eapply read_then_validate.
Qed.

Lemma read_validate_save_read_witness :
  fst (read_urls_from_file "/comfy/custom_nodes/comfy-repos.txt"
         (snd (save_repos sample_installer
                 ["https://github.com/foo/bar"; "https://github.com/a/b/"]
                 "/comfy/custom_nodes" listed_world)))
  = Return (true, "Successfully read 2 URLs from file",
            ["https://github.com/foo/bar"; "https://github.com/a/b/"]).
Proof.
  refine (f_equal fst
            (read_validate_save_read sample_installer "good.txt"
               "Successfully read 2 URLs from file"
               ["https://github.com/foo/bar"; "https://github.com/a/b/"]
               "/comfy/custom_nodes" "Repository list and required files saved successfully!"
               "/comfy/custom_nodes/comfy-repos.txt" listed_world listed_world _ _ _ _ _)).
  - rewrite read_urls_from_file_eq. f_equal.
  - reflexivity.
  - apply pair_of_fst. vm_compute. reflexivity.
  - split; reflexivity.
Defined.

(** ** What [save_repos] touches *)

Lemma copy_required_files_grown (self : CustomNodeInstaller) (target_path : path)
    (w w' : world) (o : outcome (bool * string)) :
  Forall plain (required_files self) ->
  copy_required_files self target_path w = (o, w') ->
  grown (required_files self) w w'.
Proof.
  intros Hplain. unfold copy_required_files, try_except, bind. rewrite path_exists_eq.
  destruct (locate w (utils_dir self)); simpl;
    try (intros [= _ <-]; apply grown_refl).
  destruct (copy_each _ _ _ w) as [[r|e] w1] eqn:Hc;
    apply copy_each_grown in Hc; try done; by intros [= _ <-].
Qed.

Lemma save_repos_invalid_path (self : CustomNodeInstaller) (repos : list string)
    (dir reason : string) (w : world) :
  validate_path dir w = (Return (false, reason), w) ->
  save_repos self repos dir w = (Return (false, "Error: " +:+ reason), w).
Proof. intros H. unfold save_repos, bind. by rewrite H. Qed.

Lemma save_repos_invalid_urls (self : CustomNodeInstaller) (repos : list string)
    (dir message : string) (w : world) :
  validate_path dir w = (Return (true, message), w) ->
  fst (fst (validate_github_urls repos)) = false ->
  save_repos self repos dir w
  = (Return (false, "Error: " +:+ snd (fst (validate_github_urls repos))), w).
Proof.
  intros H Hu. unfold save_repos, bind. rewrite H. simpl.
  destruct (validate_github_urls repos) as [[ok msg] valid]. simpl in *. by subst ok.
Qed.

Lemma save_repos_grown (self : CustomNodeInstaller) (repos : list string) (dir : string)
    (w w' : world) (o : outcome (bool * string)) :
  Forall plain (required_files self) ->
  save_repos self repos dir w = (o, w') ->
  (exists ok message, o = Return (ok, message))
  /\ grown (required_files self ++ ["comfy-repos.txt"]) w w'.
Proof.
  intros Hplain. unfold save_repos, bind.
  destruct (validate_path_returns dir w) as (ok & reason & ->).
  destruct ok; simpl; [|intros [= <- <-]; split; [eauto | apply grown_refl]].
  destruct (validate_github_urls repos) as [[urls_valid urls_msg] valid_urls].
  destruct urls_valid; simpl; [|intros [= <- <-]; split; [eauto | apply grown_refl]].
  unfold try_except, bind.
  destruct (copy_required_files self (Path dir) w) as [o1 w1] eqn:Hcopy.
  pose proof (copy_required_files_grown _ _ _ _ _ Hplain Hcopy) as Hg1.
  destruct (copy_required_files_returns self (Path dir) w) as (ok & m1 & w1' & Hret).
  rewrite Hret in Hcopy. injection Hcopy as <- <-.
  assert (Hg : grown (required_files self ++ ["comfy-repos.txt"]) w w1').
  { eapply grown_weaken; [|exact Hg1]. intros x Hx. apply elem_of_app. by left. }
  destruct ok; simpl; [|intros [= <- <-]; split; [eauto | done]].
  destruct (open_write _ _ w1') as [o2 w2] eqn:Hw.
  apply open_write_grown in Hw.
  assert (Hname : List.last (parts (Path dir // "comfy-repos.txt")) "" = "comfy-repos.txt").
  { apply (name_truediv_plain (Path dir) "comfy-repos.txt"). by split. }
  rewrite Hname in Hw.
  assert (Hg2 : grown (required_files self ++ ["comfy-repos.txt"]) w w2).
  { eapply grown_trans; [exact Hg|]. eapply grown_weaken; [|exact Hw].
    intros x Hx. apply elem_of_app. by right. }
  destruct o2 as [[]|e]; intros [= <- <-]; split; eauto.
Qed.

(** X7: [save_repos] changes nothing unless both validations pass: with a
    path that fails [validate_path], or a list that fails
    [validate_github_urls], it returns the failure with the reason behind
    [Error: ] and the world is as it was; no file is staged. *)
Theorem save_repos_rejects_untouched (self : CustomNodeInstaller) (repos : list string)
    (dir : string) (w : world) :
  (forall reason,
     fst (validate_path dir w) = Return (false, reason) ->
     save_repos self repos dir w = (Return (false, "Error: " +:+ reason), w))
  /\ (fst (fst (validate_github_urls repos)) = false ->
      exists reason, save_repos self repos dir w = (Return (false, "Error: " +:+ reason), w)).
Proof.
  split.
  - intros reason H. by apply save_repos_invalid_path, validate_path_fst.
  - intros Hu. destruct (validate_path_returns dir w) as ([|] & reason & Hv).
    + eexists. by eapply save_repos_invalid_urls.
    + eexists. by apply save_repos_invalid_path.
Qed.

Lemma save_repos_rejects_untouched_witness :
  save_repos sample_installer ["https://github.com/foo/bar"] "/comfy/models" sample_world
  = (Return (false, "Error: Directory must be named 'custom_nodes'"), sample_world)
  /\ exists reason,
       save_repos sample_installer ["https://github.com/foo/bar"; "not-a-url"]
         "/comfy/custom_nodes" sample_world
       = (Return (false, "Error: " +:+ reason), sample_world).
Proof.
  split.
  - apply (proj1 (save_repos_rejects_untouched sample_installer ["https://github.com/foo/bar"]
                    "/comfy/models" sample_world)).
    vm_compute. reflexivity.
  - apply (proj2 (save_repos_rejects_untouched sample_installer
                    ["https://github.com/foo/bar"; "not-a-url"] "/comfy/custom_nodes"
                    sample_world)).
    reflexivity.
Defined.

(** X8: whatever [save_repos] is given, it returns a result and raises
    nothing, leaves the working directory and the subprocess calls alone,
    creates and removes no directory, and the only entries of the file tree
    it may create or replace are files named as the three required files or
    as [comfy-repos.txt]. *)
Theorem save_repos_frame (module_file : string) (repos : list string) (dir : string)
    (w w' : world) (o : outcome (bool * string)) :
  save_repos (new_installer module_file) repos dir w = (o, w') ->
  (exists ok message, o = Return (ok, message))
  /\ cwd w' = cwd w
  /\ calls w' = calls w
  /\ (forall loc, node_at (fs w') loc = Some Dir <-> node_at (fs w) loc = Some Dir)
  /\ (forall loc,
        fs w' !! loc <> fs w !! loc ->
        List.last loc "" ∈ ["clone-custom-nodes.py"; "package-preparation.py";
                            "start-prep.bat"; "comfy-repos.txt"]).
Proof.
  intros H. apply save_repos_grown in H as (Hret & Hc & Hk & Hd & Hl);
    [|apply required_files_plain].
  split; [done|]. split; [done|]. split; [done|]. split; [intros loc; apply Hd|].
  intros loc Hne.
  destruct (decide (List.last loc "" ∈ required_files (new_installer module_file)
                                        ++ ["comfy-repos.txt"])) as [Hin|Hout]; [exact Hin|].
  by apply Hl in Hout.
Qed.

Lemma save_repos_frame_witness :
  cwd (snd (save_repos sample_installer ["https://github.com/foo/bar"] "/comfy/custom_nodes"
              sample_world)) = ["home"]
  /\ calls (snd (save_repos sample_installer ["https://github.com/foo/bar"]
                   "/comfy/custom_nodes" sample_world)) = [].
Proof.
  destruct (save_repos_frame "/opt/tool/auto_node_cli.py" ["https://github.com/foo/bar"]
              "/comfy/custom_nodes" sample_world _ _ (surjective_pairing _))
    as (_ & Hc & Hk & _).
  split; [exact Hc | exact Hk].
Defined.

(** X9: after a successful [save_repos] the file [comfy-repos.txt] of the
    target directory holds exactly the given URLs joined by line feeds,
    whatever it held before, every one of them matches the pattern, and the
    list is not empty. *)
Theorem save_repos_persists (self : CustomNodeInstaller) (repos : list string)
    (dir message : string) (w w' : world) :
  save_repos self repos dir w = (Return (true, message), w') ->
  (exists loc, locate w' (repos_file dir) = Found loc (File (join nl repos)))
  /\ repos <> []
  /\ Forall (fun url => url_matches url = true) repos.
Proof.
  intros H. pose proof H as Hs.
  apply save_repos_success in Hs as (w1 & m1 & _ & Hne & Hw).
  split; [by eapply open_write_locate|]. split; [done|].
  unfold save_repos, bind in H.
  destruct (validate_path_returns dir w) as (ok & reason & Hv). rewrite Hv in H.
  destruct ok; simpl in H; [|done].
  pose proof (validate_github_urls_eq repos) as He.
  destruct (validate_github_urls repos) as [[urls_valid urls_msg] valid_urls].
  destruct urls_valid; simpl in H; [|done].
  destruct repos as [|u repos]; [done|].
  destruct (List.filter (fun u => negb (url_matches u)) (u :: repos)) eqn:F; [|done].
  by apply filter_negb_nil.
Qed.

Lemma save_repos_persists_witness :
  exists loc,
    locate (snd (save_repos sample_installer
                   ["https://github.com/foo/bar"; "https://github.com/a/b/"]
                   "/comfy/custom_nodes" sample_world))
           (repos_file "/comfy/custom_nodes")
    = Found loc (File ("https://github.com/foo/bar" +:+ nl +:+ "https://github.com/a/b/")).
Proof.
  refine (proj1 (save_repos_persists sample_installer
                   ["https://github.com/foo/bar"; "https://github.com/a/b/"]
                   "/comfy/custom_nodes"
                   "Repository list and required files saved successfully!"
                   sample_world _ _)).
  apply pair_of_fst. vm_compute. reflexivity.
Defined.

(** ** What [copy_required_files] stages *)

Lemma locate_grown_found (names : list string) (w w' : world) (p : path)
    (loc : list string) (n : node) :
  grown names w w' -> List.last loc "" ∉ names ->
  (locate w p = Found loc n <-> locate w' p = Found loc n).
Proof.
  intros (Hc & _ & Hd & Hl) Hlast. unfold locate, origin.
  rewrite Hc, (walk_same_dirs _ _ _ _ Hd).
  destruct (walk (fs w) _ _) as [l| |]; [|done..].
  destruct (decide (l = loc)) as [->|Hne].
  - specialize (Hl loc Hlast). destruct loc as [|x loc]; [done|].
    unfold node_at. by rewrite Hl.
  - split; destruct (node_at _ l) as [[]|]; intros [= ? ?]; done.
Qed.

Lemma locate_child_last (w : world) (dir : path) (f : string) (loc : list string) (n : node) :
  plain f -> locate w (dir // f) = Found loc n -> List.last loc "" = f.
Proof.
  intros Hf. unfold locate. rewrite truediv_plain by done. simpl.
  destruct (walk _ _ _) as [l| |] eqn:Hw; [|done..].
  apply walk_snoc_last in Hw; [|apply Hf].
  destruct (node_at _ l) as [[]|]; intros [= <- _]; done.
Qed.

Lemma os_path_isdir_false (p : path) (w : world) :
  (forall loc, locate w p <> Found loc Dir) -> os_path_isdir p w = (Return false, w).
Proof.
  intros H. unfold os_path_isdir, try_except. rewrite path_is_dir_eq.
  destruct (locate w p) as [|loc []|] eqn:E; try done. by destruct (H loc).
Qed.

Lemma shutil_copy2_content (src dst : path) (w w1 : world) :
  (forall loc, locate w dst <> Found loc Dir) ->
  shutil_copy2 src dst w = (Return tt, w1) ->
  exists sloc dloc content,
    locate w src = Found sloc (File content) /\ locate w1 dst = Found dloc (File content).
Proof.
  intros Hdst. unfold shutil_copy2, bind. rewrite os_path_isdir_false by done.
  destruct (samefile_eq src dst w) as [b ->]. destruct b; [done|].
  rewrite open_read_eq. destruct (locate w src) as [|sloc [content| |]|]; try done.
  intros [dloc Hw]%open_write_locate. eauto.
Qed.

Lemma copy_each_contents (source_dir target_path : path) (files : list string) :
  Forall plain files -> NoDup files ->
  forall w w' message,
    copy_each source_dir target_path files w = (Return (true, message), w') ->
    forall f, f ∈ files ->
      (forall loc, locate w (target_path // f) <> Found loc Dir) ->
      exists sloc dloc content,
        locate w (source_dir // f) = Found sloc (File content)
        /\ locate w' (target_path // f) = Found dloc (File content).
Proof.
  induction 1 as [|f0 files Hf0 Hfiles IH]; intros Hnodup w w' message; simpl.
  - intros _ f Hin. by apply elem_of_nil in Hin.
  - apply NoDup_cons in Hnodup as [Hfresh Hnodup].
    unfold bind. rewrite path_exists_eq.
    destruct (locate w (source_dir // f0)) as [|l0 n0|] eqn:Hsrc; simpl; try done.
    destruct (shutil_copy2 _ _ w) as [[[]|e] w1] eqn:Hcopy; [|done].
    intros Hrest f Hin Hnotdir.
    pose proof (shutil_copy2_grown _ _ f0 _ _ _ Hf0
                  (name_truediv_plain _ _ Hf0) (name_truediv_plain _ _ Hf0) Hcopy) as Hg1.
    pose proof (copy_each_grown _ _ _ Hfiles _ _ _ Hrest) as Hg2.
    apply elem_of_cons in Hin as [->|Hin].
    + destruct (shutil_copy2_content _ _ _ _ Hnotdir Hcopy) as (sloc & dloc & content & Hs & Hd).
      exists sloc, dloc, content. split; [done|].
      apply (locate_grown_found files w1 w'); [done| |done].
      by rewrite (locate_child_last _ _ _ _ _ Hf0 Hd).
    + assert (Hf : plain f) by (eapply Forall_forall in Hfiles; eauto).
      assert (Hne : f <> f0) by (intros ->; done).
      assert (Hout : forall loc n d, locate w1 (d // f) = Found loc n \/ locate w (d // f) = Found loc n ->
                                     List.last loc "" ∉ [f0]).
      { intros loc n d [H|H]; apply (locate_child_last _ _ _ _ _ Hf) in H;
          rewrite H; by intros ?%list_elem_of_singleton. }
      destruct (IH Hnodup _ _ _ Hrest f Hin) as (sloc & dloc & content & Hs & Hd).
      { intros loc H. apply (Hnotdir loc).
        apply (locate_grown_found [f0] w w1); [done| |done]. eapply Hout; eauto. }
      exists sloc, dloc, content. split; [|done].
      apply (locate_grown_found [f0] w w1); [done| |done]. eapply Hout; eauto.
Qed.

Lemma copy_required_files_copied (self : CustomNodeInstaller) (target_path : path)
    (message : string) (w w' : world) :
  Forall plain (required_files self) -> NoDup (required_files self) ->
  copy_required_files self target_path w = (Return (true, message), w') ->
  forall file, file ∈ required_files self ->
    (forall loc, locate w (target_path // file) <> Found loc Dir) ->
    exists sloc dloc content,
      locate w (utils_dir self // file) = Found sloc (File content)
      /\ locate w' (target_path // file) = Found dloc (File content).
Proof.
  intros Hplain Hnodup. unfold copy_required_files, try_except, bind. rewrite path_exists_eq.
  destruct (locate w (utils_dir self)); simpl; try done.
  destruct (copy_each (utils_dir self) target_path (required_files self) w)
    as [[[ok m]|e] w1] eqn:Hc; simpl; [|done].
  intros [= -> -> ->]. by eapply copy_each_contents.
Qed.

(** X10: after a successful [copy_required_files], every required file whose
    name is not a directory of the target is in the target directory with
    the content the bundled file had when the call began. *)
Theorem copy_required_files_contents (module_file : string) (target_path : path)
    (message : string) (w w' : world) :
  let self := new_installer module_file in
  copy_required_files self target_path w = (Return (true, message), w') ->
  forall file, file ∈ required_files self ->
    (forall loc, locate w (target_path // file) <> Found loc Dir) ->
    exists sloc dloc content,
      locate w (utils_dir self // file) = Found sloc (File content)
      /\ locate w' (target_path // file) = Found dloc (File content).
Proof.
  intros self. apply copy_required_files_copied.
  - apply required_files_plain.
  - apply (bool_decide_unpack _). by vm_compute.
Qed.

Lemma copy_required_files_contents_witness :
  exists sloc dloc content,
    locate sample_world (utils_dir sample_installer // "start-prep.bat")
    = Found sloc (File content)
    /\ locate (snd (copy_required_files sample_installer (Path "/comfy/custom_nodes")
                      sample_world))
              (Path "/comfy/custom_nodes" // "start-prep.bat")
       = Found dloc (File content).
Proof.
  refine (copy_required_files_contents "/opt/tool/auto_node_cli.py"
            (Path "/comfy/custom_nodes") "Required files copied successfully"
            sample_world _ _ "start-prep.bat" _ _).
  - apply pair_of_fst. vm_compute. reflexivity.
  - do 2 apply list_elem_of_further. apply list_elem_of_here.
  - intros loc. vm_compute. discriminate.
Defined.

(** ** What [install_nodes] touches and reports *)

Lemma install_nodes_effect (sys_executable : string)
    (child : call -> outcome CompletedProcess) (dir : string) (w w' : world)
    (o : outcome (bool * string)) :
  install_nodes sys_executable child dir w = (o, w') ->
  exists ok message,
    o = Return (ok, message)
    /\ fs w' = fs w
    /\ (calls w' = calls w /\ ok = false
        \/ exists c,
             calls w' = calls w ++ [c]
             /\ (ok = true ->
                 exists result, child c = Return result /\ returncode result = 0%Z)).
Proof.
  intros H. unfold install_nodes, bind, try_except, install_body, bind in H.
  destruct (validate_path_returns dir w) as (ok & msg & Hv). rewrite Hv in H.
  destruct ok; simpl in H; [|injection H as <- <-; eexists _, _; eauto].
  rewrite path_exists_eq in H.
  destruct (locate w (Path dir // "clone-custom-nodes.py")); simpl in H;
    try (injection H as <- <-; eexists _, _; by eauto).
  unfold os_getcwd in H.
  destruct (node_at (fs w) (cwd w)) as [[]|]; simpl in H;
    try (injection H as <- <-; eexists _, _; by eauto).
  rewrite os_chdir_name_eq in H.
  destruct (os_locate w dir) as [|target []|];
    try (injection H as <- <-; eexists _, _; by eauto).
  unfold try_finally, run_script, bind, subprocess_run, ret in H.
  destruct (child _) as [result|e] eqn:Hchild; rewrite os_chdir_eq in H;
    match type of H with context [locate ?w2 ?p] => destruct (locate w2 p) as [|? []|] end;
    injection H as <- <-; eexists _, _; (split; [reflexivity|]); (split; [reflexivity|]);
    right; eexists; (split; [reflexivity|]); try done.
  intros Hz%Z.eqb_eq. eauto.
Qed.

(** Until [install_nodes] runs the script it only looks: when it makes no
    call, the world is as it was. *)
Lemma install_nodes_idle (sys_executable : string)
    (child : call -> outcome CompletedProcess) (dir : string) (w w' : world)
    (o : outcome (bool * string)) :
  install_nodes sys_executable child dir w = (o, w') ->
  w' = w \/ exists c, calls w' = calls w ++ [c].
Proof.
  intros H. unfold install_nodes, bind, try_except, install_body, bind in H.
  destruct (validate_path_returns dir w) as (ok & msg & Hv). rewrite Hv in H.
  destruct ok; simpl in H; [|injection H as <- <-; by left].
  rewrite path_exists_eq in H.
  destruct (locate w (Path dir // "clone-custom-nodes.py")); simpl in H;
    try (injection H as <- <-; by left).
  unfold os_getcwd in H.
  destruct (node_at (fs w) (cwd w)) as [[]|]; simpl in H;
    try (injection H as <- <-; by left).
  rewrite os_chdir_name_eq in H.
  destruct (os_locate w dir) as [|target []|];
    try (injection H as <- <-; by left).
  unfold try_finally, run_script, bind, subprocess_run, ret in H.
  destruct (child _) as [result|e] eqn:Hchild; rewrite os_chdir_eq in H;
    match type of H with context [locate ?w2 ?p] => destruct (locate w2 p) as [|? []|] end;
    injection H as <- <-; right; eexists; reflexivity.
Qed.

(** X11: [install_nodes] returns a result and raises nothing, whatever the
    file tree holds and whatever the child process returns or raises.  Either
    it fails before running anything, and then file tree, working directory
    and call record are as they were, or it makes exactly one subprocess
    call; and when the working directory it starts in is a directory of the
    tree, it ends in that directory. *)
Theorem install_nodes_frame (sys_executable : string)
    (child : call -> outcome CompletedProcess) (dir : string) (w w' : world)
    (o : outcome (bool * string)) :
  install_nodes sys_executable child dir w = (o, w') ->
  (exists ok message,
     o = Return (ok, message)
     /\ (ok = false /\ w' = w \/ exists c, calls w' = calls w ++ [c]))
  /\ (cwd_ok w -> cwd w' = cwd w).
Proof.
  intros H. pose proof H as He. pose proof (install_nodes_idle _ _ _ _ _ _ H) as Hidle.
  apply install_nodes_effect in He as (ok & message & -> & Hfs & Hcalls).
  split.
  - exists ok, message. split; [done|].
    destruct Hcalls as [[_ ->] | (c & Hc & _)]; [|by eauto].
    destruct Hidle as [-> | ?]; auto.
  - intros Hcwd. destruct (validate_path_returns dir w) as (v & msg & Hv). destruct v.
    + destruct (validate_path_true _ _ _ _ Hv) as [_ [target Ht]].
      rewrite (install_nodes_eq _ _ _ _ _ target Hv Ht Hcwd) in H.
      apply (f_equal snd) in H. simpl in H. subst w'.
      by destruct (locate w (clone_script dir)).
    + rewrite (install_nodes_invalid _ _ _ _ _ Hv) in H.
      apply (f_equal snd) in H. simpl in H. by subst w'.
Qed.

Lemma install_nodes_frame_witness :
  (exists ok message,
     fst (install_nodes "python" (child_exit 1) "/comfy/models" staged_world)
     = Return (ok, message)
     /\ (ok = false
         /\ snd (install_nodes "python" (child_exit 1) "/comfy/models" staged_world)
            = staged_world
         \/ exists c,
              calls (snd (install_nodes "python" (child_exit 1) "/comfy/models" staged_world))
              = calls staged_world ++ [c]))
  /\ cwd (snd (install_nodes "python" child_unavailable "/comfy/custom_nodes" staged_world))
     = cwd staged_world.
Proof.
  split.
  - apply (proj1 (install_nodes_frame "python" (child_exit 1) "/comfy/models" staged_world
                    _ _ (surjective_pairing _))).
  - apply (proj2 (install_nodes_frame "python" child_unavailable "/comfy/custom_nodes"
                    staged_world _ _ (surjective_pairing _))).
    vm_compute. reflexivity.
Defined.

Lemma rstrip_append (a b : string) : rstrip b <> "" -> rstrip (a +:+ b) = a +:+ rstrip b.
Proof.
  intros Hb. induction a as [|c a IH]; simpl; [done|]. rewrite IH.
  destruct (a +:+ rstrip b) eqn:E.
  - destruct a; simpl in E; [done | discriminate].
  - simpl. by rewrite andb_false_r.
Qed.

Lemma lstrip_append (a b : string) :
  lstrip b = b -> exists pre, lstrip (a +:+ b) = pre +:+ b.
Proof.
  intros Hb. induction a as [|c a IH]; simpl.
  - exists "". by rewrite Hb.
  - destruct (is_space c); [exact IH|]. by exists (String c a).
Qed.

(** X12: the report [install_nodes] returns after a completed run always
    ends with [Installation process completed!], whatever the exit code and
    the output streams; when the standard output begins with a character
    that is not whitespace, the report is the standard output, the error
    section if there is one, the rule of 50 [=] and the banner, unchanged by
    the stripping. *)
Theorem report_ends_with_banner (result : CompletedProcess) :
  (exists text, strip (formatted_output result) = text +:+ "Installation process completed!")
  /\ (forall c rest,
        stdout result = String c rest -> is_space c = false ->
        strip (formatted_output result) = formatted_output result).
Proof.
  assert (Hb : rstrip "Installation process completed!" = "Installation process completed!")
    by reflexivity.
  assert (Hne : rstrip "Installation process completed!" <> "") by (rewrite Hb; discriminate).
  unfold formatted_output. split.
  - match goal with |- context [strip (?a +:+ _)] => set (body := a) end.
    unfold strip.
    destruct (lstrip_append body "Installation process completed!" eq_refl) as [pre ->].
    exists pre. by rewrite rstrip_append, Hb.
  - intros c rest Hout Hc. rewrite Hout. simpl is_empty. cbv iota. unfold strip.
    match goal with |- context [lstrip (?a +:+ _)] => set (body := a) end.
    assert (Hhead : exists tail, body = String c tail).
    { subst body. destruct (is_empty (stderr result)); simpl; eauto. }
    destruct Hhead as [tail Hbody]. rewrite Hbody. simpl lstrip. rewrite Hc.
    change (String c (tail +:+ ?b)) with (String c tail +:+ b).
    by rewrite rstrip_append, Hb.
Qed.

Lemma report_ends_with_banner_witness :
  strip (formatted_output {| returncode := 1; stdout := "cloned"; stderr := "fatal" |})
  = formatted_output {| returncode := 1; stdout := "cloned"; stderr := "fatal" |}.
Proof.
  apply (proj2 (report_ends_with_banner
                  {| returncode := 1; stdout := "cloned"; stderr := "fatal" |}) "c"%char "loned");
    reflexivity.
Defined.

(** ** The command line *)

Lemma read_urls_from_file_returns (file_path : string) (w : world) :
  exists r, read_urls_from_file file_path w = (Return r, w).
Proof. rewrite read_urls_from_file_eq. eauto. Qed.

Lemma save_repos_returns (module_file : string) (repos : list string) (dir : string)
    (w : world) :
  exists ok message w',
    save_repos (new_installer module_file) repos dir w = (Return (ok, message), w')
    /\ cwd w' = cwd w /\ calls w' = calls w.
Proof.
  destruct (save_repos (new_installer module_file) repos dir w) as [o w'] eqn:H.
  apply save_repos_grown in H as ((ok & message & ->) & Hc & Hk & _);
    [|apply required_files_plain].
  eauto 6.
Qed.

Lemma lower_y (s : string) : String.eqb (lower s) "y" = true <-> s = "y" \/ s = "Y".
Proof.
  rewrite String.eqb_eq. destruct s as [|c [|d s]]; simpl.
  - split; [done | by intros [|]].
  - split.
    + intros [= H]. destruct c as [[] [] [] [] [] [] [] []]; vm_compute in H; try done; auto.
    + by intros [[= ->] | [= ->]].
  - split; [done | by intros [|]].
Qed.

(** One step through [main]: the next method call is replaced by the result
    it is known to return, the next test or prompt is split into its cases. *)
Ltac main_step H :=
  match type of H with
  | context [read_urls_from_file ?f ?w] =>
      let Hread := fresh "Hread" in
      destruct (read_urls_from_file_returns f w) as [[[? ?] ?] Hread];
      rewrite Hread in H
  | context [validate_path ?d ?w] =>
      let Hpath := fresh "Hpath" in
      destruct (validate_path_returns d w) as (? & ? & Hpath); rewrite Hpath in H
  | context [save_repos (new_installer ?m) ?r ?d ?w] =>
      let Hsave := fresh "Hsave" in
      destruct (save_repos_returns m r d w) as (? & ? & ? & Hsave & ? & ?);
      rewrite Hsave in H
  | context [install_nodes ?e ?c ?d ?w] =>
      let Hrun := fresh "Hrun" in
      let o := fresh "o" in
      destruct (install_nodes e c d w) as [o ?] eqn:Hrun;
      let Heffect := fresh "Heffect" in
      pose proof (install_nodes_effect _ _ _ _ _ _ Hrun) as Heffect;
      destruct Heffect as (? & ? & -> & ? & ?)
  | context [validate_github_urls ?u] =>
      destruct (validate_github_urls u) as [[? ?] ?] eqn:?
  | context [args_dir ?a] => destruct (args_dir a) eqn:?
  | context [pending_input ?t] => is_var t; destruct t as [[|? ?] ?]
  | context [match ?l with [] => _ | _ :: _ => _ end] => is_var l; destruct l
  | context [negb ?b] => is_var b; destruct b
  | context [if ?b then _ else _] => destruct b eqn:?
  end; simpl in H.

Ltac main_cases H :=
  unfold main, cli_bind, call_method, print, sys_exit, cli_ret, input in H; simpl in H;
  repeat main_step H.

Section MainProperties.

Variable module_file : string.
Variable sys_executable : string.
Variable child : call -> outcome CompletedProcess.

(** X13: when the file cannot be read, or holds a URL that fails the
    pattern, [main] prints the reason and exits with status 1 before it
    prompts for anything: no line of input is consumed and the world is as
    it was. *)
Theorem main_rejects_bad_list (args : Namespace) (t : console) (w : world) :
  (forall message urls,
     fst (read_urls_from_file (args_file args) w) = Return (false, message, urls) ->
     main module_file sys_executable child args t w
     = (Stopped (Exited 1),
        {| pending_input := pending_input t;
           written := (written t ++ [Line ("Reading URLs from file: " +:+ args_file args)])
                      ++ [Line ("Error: " +:+ message)] |}, w))
  /\ (forall message urls,
        fst (read_urls_from_file (args_file args) w) = Return (true, message, urls) ->
        fst (fst (validate_github_urls urls)) = false ->
        main module_file sys_executable child args t w
        = (Stopped (Exited 1),
           {| pending_input := pending_input t;
              written := ((written t ++ [Line ("Reading URLs from file: " +:+ args_file args)])
                          ++ [Line ("Found " +:+ str_of_nat (length urls) +:+ " GitHub URLs")])
                         ++ [Line ("Error: " +:+ snd (fst (validate_github_urls urls)))] |}, w)).
Proof.
  split.
  - intros message urls Hr.
    destruct (read_urls_from_file_returns (args_file args) w) as [r Hread].
    rewrite Hread in Hr. injection Hr as ->.
    unfold main, cli_bind, call_method, print, sys_exit. simpl. by rewrite Hread.
  - intros message urls Hr Hv.
    destruct (read_urls_from_file_returns (args_file args) w) as [r Hread].
    rewrite Hread in Hr. injection Hr as ->.
    unfold main, cli_bind, call_method, print, sys_exit. simpl. rewrite Hread. simpl.
    destruct (validate_github_urls urls) as [[ok msg] valid]. simpl in Hv. by subst ok.
Qed.


(** X14: with [--validate], [main] changes nothing in the world; it exits
    with status 0 exactly when the file is read, every URL passes the
    pattern and the chosen directory passes [validate_path], and otherwise
    exits with status 1 or fails at the prompt for want of input. *)
Theorem main_validate_only (args : Namespace) (t t' : console) (w w' : world)
    (p : progress unit) :
  args_validate args = true ->
  main module_file sys_executable child args t w = (p, t', w') ->
  w' = w
  /\ (p = Stopped (Exited 0)
      <-> exists message urls d m,
            read_urls_from_file (args_file args) w = (Return (true, message, urls), w)
            /\ fst (fst (validate_github_urls urls)) = true
            /\ chosen_directory args t = Some d
            /\ validate_path d w = (Return (true, m), w))
  /\ (p = Stopped (Exited 0) \/ p = Stopped (Exited 1)
      \/ p = Stopped (Crashed "EOF when reading a line")).
Proof.
  intros Hv H. unfold main in H. rewrite Hv in H. main_cases H; injection H as <- <- <-.
  all: split; [done|]. all: split; [|by auto].
  all: unfold chosen_directory; simpl;
    repeat match goal with E : args_dir _ = _ |- _ => rewrite E; clear E end.
  all: split.
  all: try (intros (message & urls & d & m & Hr & Hu & Hd & Hp);
            rewrite Hread in Hr; simplify_eq/=;
            try match goal with E : validate_github_urls _ = _ |- _ => rewrite E in Hu end;
            repeat match goal with E : is_empty _ = _ |- _ => rewrite E in Hd end;
            simplify_eq/=; congruence).
  all: try done.
  all: intros _; eexists _, _, _, _; split; [eassumption|].
  all: split; [by match goal with E : validate_github_urls _ = _ |- _ => rewrite E end|].
  all: repeat match goal with E : is_empty _ = _ |- _ => rewrite E end.
  all: split; [reflexivity | eassumption].
Qed.

(** X15: [main] runs the clone script only after the line typed at the
    confirmation prompt is [y] or [Y], and never with [--validate]; when it
    does, it makes exactly one subprocess call. *)
Theorem main_runs_script_only_on_yes (args : Namespace) (t t' : console) (w w' : world)
    (p : progress unit) :
  main module_file sys_executable child args t w = (p, t', w') ->
  calls w' <> calls w ->
  args_validate args = false
  /\ (confirmation args t = Some "y" \/ confirmation args t = Some "Y")
  /\ exists c, calls w' = calls w ++ [c].
Proof.
  intros H Hcalls. main_cases H; injection H as <- <- <-; try done; try congruence.
  all: repeat match goal with
       | E : _ /\ _ |- _ => destruct E
       | E : _ \/ _ |- _ => destruct E
       | E : exists _, _ |- _ => destruct E
       end; try congruence.
  all: split; [done|].
  all: unfold confirmation; simpl;
    repeat match goal with E : args_dir _ = _ |- _ => rewrite E; clear E end;
    repeat match goal with E : is_empty _ = _ |- _ => rewrite E end; simpl.
  all: split; [|match goal with E : calls _ = _ ++ [?x] |- _ => exists x end; congruence].
  all: match goal with E : negb _ = false |- _ =>
         apply negb_false_iff, lower_y in E; destruct E as [-> | ->]; auto end.
Qed.

(** X16: when everything validates and [save_repos] succeeds, any answer
    other than [y] or [Y] at the confirmation prompt makes [main] print that
    the installation is cancelled and exit with status 0; the world is then
    the one [save_repos] left, with the files staged and the list written,
    and no subprocess call was made. *)
Theorem main_cancel_keeps_staged (args : Namespace) (t : console) (w w1 : world)
    (message m saved d answer : string) (urls : list string) :
  args_validate args = false ->
  read_urls_from_file (args_file args) w = (Return (true, message, urls), w) ->
  fst (fst (validate_github_urls urls)) = true ->
  chosen_directory args t = Some d ->
  validate_path d w = (Return (true, m), w) ->
  save_repos (new_installer module_file) urls d w = (Return (true, saved), w1) ->
  confirmation args t = Some answer ->
  answer <> "y" -> answer <> "Y" ->
  exists t',
    main module_file sys_executable child args t w = (Stopped (Exited 0), t', w1)
    /\ last (written t') = Some (Line "Installation cancelled")
    /\ calls w1 = calls w.
Proof.
  intros Hv Hr Hu Hd Hp Hs Hc Hy1 Hy2.
  destruct (validate_github_urls_true urls Hu) as [_ Hvalid].
  destruct (validate_github_urls urls) as [[ok msg] valid] eqn:Hval. simpl in Hu, Hvalid.
  subst ok valid.
  assert (Hno : negb (String.eqb (lower answer) "y") = true).
  { apply negb_true_iff, not_true_is_false. intros [?|?]%lower_y; done. }
  destruct (save_repos_returns module_file urls d w) as (ok' & m' & w1' & Hs' & _ & Hk).
  rewrite Hs in Hs'. injection Hs' as <- <- <-.
  unfold main, cli_bind, call_method, print, sys_exit, cli_ret, input. simpl.
  rewrite Hr. simpl. rewrite Hval. simpl.
  unfold chosen_directory, confirmation in *.
  destruct t as [pending out]. simpl in *.
  destruct (args_dir args) as [d0|] eqn:Hdir; [destruct (is_empty d0) eqn:He|].
  - destruct pending as [|a [|b rest]]; simplify_eq/=.
    rewrite Hp. simpl. rewrite Hv. simpl. rewrite Hs. simpl. rewrite Hno. simpl.
    eexists. split; [reflexivity|]. split; [apply last_snoc | done].
  - destruct pending as [|a rest]; simplify_eq/=.
    rewrite Hp. simpl. rewrite Hv. simpl. rewrite Hs. simpl. rewrite Hno. simpl.
    eexists. split; [reflexivity|]. split; [apply last_snoc | done].
  - destruct pending as [|a [|b rest]]; simplify_eq/=.
    rewrite Hp. simpl. rewrite Hv. simpl. rewrite Hs. simpl. rewrite Hno. simpl.
    eexists. split; [reflexivity|]. split; [apply last_snoc | done].
Qed.

(** X18: [main] returns normally, past its last [sys.exit], only if it was
    not run with [--validate] and the clone script was called once and
    completed with exit code zero. *)
Theorem main_success_means_clean_run (args : Namespace) (t t' : console) (w w' : world) :
  main module_file sys_executable child args t w = (Went tt, t', w') ->
  args_validate args = false
  /\ exists c result,
       calls w' = calls w ++ [c] /\ child c = Return result /\ returncode result = 0%Z.
Proof.
  intros H. main_cases H; try discriminate H. injection H as <- <-.
  all: split; [done|].
  all: match goal with E : _ \/ _ |- _ => destruct E as [[_ ?] | (c & Hc & Hok)] end;
    [done|].
  all: destruct (Hok eq_refl) as (result & ? & ?); exists c, result;
    split; [congruence | done].
Qed.

End MainProperties.

Lemma triple_of_fst (A B C : Type) (x : A * B * C) (a : A) :
  fst (fst x) = a -> x = (a, snd (fst x), snd x).
Proof. destruct x as [[? ?] ?]. simpl. by intros ->. Qed.

Lemma main_rejects_bad_list_witness :
  fst (fst (sample_main (sample_args "missing.txt" None false) ["anything"] sample_world))
  = Stopped (Exited 1)
  /\ sample_main (sample_args "urls.txt" None false) ["anything"] sample_world
     = (Stopped (Exited 1),
        {| pending_input := ["anything"];
           written := [Line "Reading URLs from file: urls.txt";
                       Line "Found 2 GitHub URLs";
                       Line ("Error: Invalid GitHub URLs found:" +:+ nl +:+ "not-a-url")] |},
        sample_world).
Proof.
  split.
  - refine (f_equal (fun x => fst (fst x))
              (proj1 (main_rejects_bad_list "/opt/tool/auto_node_cli.py" "python" (child_exit 0)
                        (sample_args "missing.txt" None false) (sample_console ["anything"])
                        sample_world) "File not found: missing.txt" [] _)).
    vm_compute. reflexivity.
  - apply (proj2 (main_rejects_bad_list "/opt/tool/auto_node_cli.py" "python" (child_exit 0)
                    (sample_args "urls.txt" None false) (sample_console ["anything"])
                    sample_world) "Successfully read 2 URLs from file"
                 ["https://github.com/foo/bar"; "not-a-url"]).
    + vm_compute. reflexivity.
    + reflexivity.
Defined.

Lemma main_validate_only_witness :
  snd (sample_main (sample_args "good.txt" (Some "/comfy/custom_nodes") true) [] listed_world)
  = listed_world.
Proof.
  refine (proj1
            (main_validate_only "/opt/tool/auto_node_cli.py" "python" (child_exit 0)
               (sample_args "good.txt" (Some "/comfy/custom_nodes") true) (sample_console [])
               _ listed_world _ _ eq_refl
               (triple_of_fst _ _ _ _ (Stopped (Exited 0)) _))).
  vm_compute. reflexivity.
Defined.

Lemma main_runs_script_only_on_yes_witness :
  confirmation (sample_args "good.txt" None false) (sample_console ["/comfy/custom_nodes"; "Y"])
  = Some "y"
  \/ confirmation (sample_args "good.txt" None false)
       (sample_console ["/comfy/custom_nodes"; "Y"])
     = Some "Y".
Proof.
  refine (proj1 (proj2
            (main_runs_script_only_on_yes "/opt/tool/auto_node_cli.py" "python" (child_exit 0)
               (sample_args "good.txt" None false)
               (sample_console ["/comfy/custom_nodes"; "Y"]) _ listed_world _ _
               (triple_of_fst _ _ _ _ _ eq_refl) _))).
  vm_compute. discriminate.
Defined.

Lemma main_cancel_keeps_staged_witness :
  exists t',
    sample_main (sample_args "good.txt" (Some "/comfy/custom_nodes") false) ["no"] listed_world
    = (Stopped (Exited 0), t',
       snd (save_repos (new_installer "/opt/tool/auto_node_cli.py")
              ["https://github.com/foo/bar"; "https://github.com/a/b/"]
              "/comfy/custom_nodes" listed_world))
    /\ last (written t') = Some (Line "Installation cancelled")
    /\ calls (snd (save_repos (new_installer "/opt/tool/auto_node_cli.py")
                     ["https://github.com/foo/bar"; "https://github.com/a/b/"]
                     "/comfy/custom_nodes" listed_world))
       = calls listed_world.
Proof.
  apply (main_cancel_keeps_staged "/opt/tool/auto_node_cli.py" "python" (child_exit 0)
           (sample_args "good.txt" (Some "/comfy/custom_nodes") false) (sample_console ["no"])
           listed_world _ "Successfully read 2 URLs from file" "Path is valid"
           "Repository list and required files saved successfully!"
           "/comfy/custom_nodes" "no"
           ["https://github.com/foo/bar"; "https://github.com/a/b/"]).
  - reflexivity.
  - rewrite read_urls_from_file_eq. f_equal.
  - reflexivity.
  - reflexivity.
  - apply validate_path_fst. vm_compute. reflexivity.
  - apply pair_of_fst. vm_compute. reflexivity.
  - reflexivity.
  - discriminate.
  - discriminate.
Defined.


Lemma main_success_means_clean_run_witness :
  exists c result,
    calls (snd (sample_main (sample_args "good.txt" (Some "/comfy/custom_nodes") false) ["y"]
                  listed_world))
    = calls listed_world ++ [c]
    /\ child_exit 0 c = Return result /\ returncode result = 0%Z.
Proof.
  refine (proj2
            (main_success_means_clean_run "/opt/tool/auto_node_cli.py" "python" (child_exit 0)
               (sample_args "good.txt" (Some "/comfy/custom_nodes") false)
               (sample_console ["y"]) _ listed_world _ _)).
  apply triple_of_fst. vm_compute. reflexivity.
Defined.
